(** * Namespace routing and multi-namespace access layer of the MCP worker

    A shallow embedding of [src/index.ts] and [src/env.ts]: the static
    tables, [resolveKV], [listAllKeys] and the tool handlers, over an
    abstract Workers KV backend, together with a reference in-memory
    backend and the properties of the routing layer.  The handlers
    [kv_key_put] and [kv_key_delete] and the HTTP entry point take no part
    in the properties below and are left out. *)

From Stdlib Require Import String Ascii ZArith List Lia.
From Stdlib Require Import DecimalString DecimalNat.
From stdpp Require Import base option list gmap strings.

Local Open Scope string_scope.
Local Open Scope list_scope.
Local Open Scope nat_scope.

(** ** JavaScript values used by the worker *)

(** The double-quote character of the template literals. *)
Definition dquote : string := String "034"%char EmptyString.

(** Truthiness of a JavaScript string: every string but the empty one. *)
Definition truthy (s : string) : bool := negb (String.eqb s "").

(** Truthiness of [string | undefined]. *)
Definition truthy_opt (c : option string) : bool :=
  match c with
  | Some s => truthy s
  | None => false
  end.

(** An object literal: its own properties, enumerated in insertion order
    by [Object.keys] and [Object.entries].  [record_get] finds an own
    property by name. *)
Definition JSRecord (V : Type) : Type := list (string * V).

Fixpoint record_get {V : Type} (o : JSRecord V) (k : string) : option V :=
  match o with
  | [] => None
  | (k', v) :: o' => if String.eqb k' k then Some v else record_get o' k
  end.

Definition Object_keys {V : Type} (o : JSRecord V) : list string := map fst o.

Definition Object_entries {V : Type} (o : JSRecord V) : list (string * V) := o.

(** The string-named members of [Object.prototype], which every ordinary
    object inherits: the tables of [env.ts], the environment the runtime
    hands to [fetch], and every object literal of the handlers. *)
Definition Object_prototype : list string :=
  [ "constructor"; "__defineGetter__"; "__defineSetter__"; "hasOwnProperty";
    "__lookupGetter__"; "__lookupSetter__"; "isPrototypeOf";
    "propertyIsEnumerable"; "toString"; "valueOf"; "__proto__";
    "toLocaleString" ].

Definition inherited (k : string) : bool := bool_decide (k ∈ Object_prototype).

(** What the read [o[k]] of an ordinary object gives: the own property of
    that name; failing that, the member of [Object.prototype] of that name
    (a built-in function, or [Object.prototype] itself for [__proto__]);
    failing that, [undefined]. *)
Inductive Slot (V : Type) : Type :=
  | Own (v : V)
  | Inherited (member : string)
  | Undefined.
Arguments Own {V} v.
Arguments Inherited {V} member.
Arguments Undefined {V}.

(** [o[k]], given the own property of [o] under [k], if any. *)
Definition property {V : Type} (own : option V) (k : string) : Slot V :=
  match own with
  | Some v => Own v
  | None => if inherited k then Inherited k else Undefined
  end.

(** [k in o]: own or inherited. *)
Definition has_property {V : Type} (own : option V) (k : string) : bool :=
  match own with
  | Some _ => true
  | None => inherited k
  end.

(** [o[k]] for an object literal. *)
Definition record_read {V : Type} (o : JSRecord V) (k : string) : Slot V :=
  property (record_get o k) k.

(** Truthiness of what a read of a table of objects gives: an entry and
    an inherited member are objects or functions, hence truthy;
    [undefined] is not. *)
Definition is_defined {V : Type} (p : Slot V) : bool :=
  match p with
  | Undefined => false
  | _ => true
  end.

(** [p.f] for a value [p] that is not [undefined]: the field of an own
    entry; [undefined] on a member of [Object.prototype], none of which
    has a property [binding] or [humanName]. *)
Definition field {V A : Type} (f : V → A) (p : Slot V) : option A :=
  match p with
  | Own v => Some (f v)
  | _ => None
  end.

(** A value used as a property key: [undefined] becomes the string
    [undefined]. *)
Definition property_key (k : option string) : string := default "undefined" k.

(** A property of an object literal as [JSON.stringify] and the store's
    metadata serialisation see it: dropped when the value is
    [undefined]. *)
Definition optional {A : Type} (name : string) (v : option A) : list (string * A) :=
  match v with
  | Some a => [ (name, a) ]
  | None => []
  end.

(** ** env.ts *)

(** A [KVNamespace] value is a reference to one external store. *)
Definition KVNamespace : Type := nat.

(** The worker environment: the own properties of the object [env],
    binding name to bound store.  [env] is an ordinary object, so
    [k in env] and [env[k]] also see the members of [Object.prototype]. *)
Abbreviation Env := (gmap string KVNamespace).

(** [k in env]. *)
Definition in_env (env : Env) (k : string) : bool := has_property (env !! k) k.

(** [env[k]]. *)
Definition env_get (env : Env) (k : string) : Slot KVNamespace :=
  property (env !! k) k.

(** The bindings declared by [interface Env]. *)
Definition Env_bindings : list string :=
  [ "BRIDGE_ACCOUNTS";
    "KV_COURT_OF_APPEAL"; "KV_CHANCERY"; "KV_ADMIN_COURT"; "KV_KINGS_BENCH";
    "KV_SUPREME"; "KV_CLERKENWELL"; "KV_CENTRAL_LONDON";
    "KV_LIU"; "KV_HK_LAW"; "KV_LESSEL"; "KV_LETTING_AGENTS"; "KV_BARRISTERS";
    "KV_GLD"; "KV_US_STATE_DEPT"; "KV_ESTONIA";
    "KV_HMCTS"; "KV_ICO"; "KV_PHSO"; "KV_BAR_STANDARDS"; "KV_PARLIAMENT" ].

(** An environment that carries exactly the declared bindings. *)
Definition declared_env (env : Env) : Prop :=
  dom env = list_to_set Env_bindings.

Definition NAMESPACE_MAP : JSRecord string :=
  [ ("bridge-accounts", "BRIDGE_ACCOUNTS");
    ("court-of-appeal", "KV_COURT_OF_APPEAL");
    ("chancery", "KV_CHANCERY");
    ("admin-court", "KV_ADMIN_COURT");
    ("kings-bench", "KV_KINGS_BENCH");
    ("supreme", "KV_SUPREME");
    ("clerkenwell", "KV_CLERKENWELL");
    ("central-london", "KV_CENTRAL_LONDON");
    ("liu", "KV_LIU");
    ("hk-law", "KV_HK_LAW");
    ("lessel", "KV_LESSEL");
    ("letting-agents", "KV_LETTING_AGENTS");
    ("barristers", "KV_BARRISTERS");
    ("gld", "KV_GLD");
    ("us-state-dept", "KV_US_STATE_DEPT");
    ("estonia", "KV_ESTONIA");
    ("hmcts", "KV_HMCTS");
    ("ico", "KV_ICO");
    ("phso", "KV_PHSO");
    ("bar-standards", "KV_BAR_STANDARDS");
    ("parliament", "KV_PARLIAMENT") ].

Record FolderMapping : Type := mkFolderMapping {
  binding : string;
  humanName : string
}.

Definition FOLDER_BINDING_MAP : JSRecord FolderMapping :=
  [ ("INBOX/MobiCycle Estonia/Liu", mkFolderMapping "KV_LIU" "Liu Litigation");
    ("INBOX/MobiCycle Estonia/HK Law", mkFolderMapping "KV_HK_LAW" "HK Law Defendants");
    ("INBOX/MobiCycle Estonia/Lessel", mkFolderMapping "KV_LESSEL" "Lessel Property");
    ("INBOX/MobiCycle Estonia/Letting Agents",
       mkFolderMapping "KV_LETTING_AGENTS" "Rentify Letting Agents");
    ("Labels/HK Law", mkFolderMapping "KV_HK_LAW" "HK Law Defendants");
    ("Labels/Liu", mkFolderMapping "KV_LIU" "Liu Litigation");
    ("Labels/Veena", mkFolderMapping "KV_BARRISTERS" "Pro Bono Barristers");
    ("INBOX/Government/GLD", mkFolderMapping "KV_GLD" "Government Legal Department");
    ("INBOX/Government/US State Dept",
       mkFolderMapping "KV_US_STATE_DEPT" "US State Department");
    ("INBOX/Government/Estonia", mkFolderMapping "KV_ESTONIA" "Estonian Government");
    ("INBOX/Courts/Court of Appeal", mkFolderMapping "KV_COURT_OF_APPEAL" "Court of Appeal");
    ("INBOX/Courts/Chancery", mkFolderMapping "KV_CHANCERY" "Chancery Division");
    ("INBOX/Courts/Admin Court", mkFolderMapping "KV_ADMIN_COURT" "Administrative Court");
    ("INBOX/Courts/Kings Bench", mkFolderMapping "KV_KINGS_BENCH" "King's Bench Division");
    ("INBOX/Courts/Supreme", mkFolderMapping "KV_SUPREME" "Supreme Court");
    ("INBOX/Courts/Clerkenwell",
       mkFolderMapping "KV_CLERKENWELL" "Clerkenwell County Court");
    ("INBOX/Courts/Central London",
       mkFolderMapping "KV_CENTRAL_LONDON" "Central London County Court");
    ("INBOX/Complaints/HMCTS", mkFolderMapping "KV_HMCTS" "HMCTS Complaints");
    ("INBOX/Complaints/ICO", mkFolderMapping "KV_ICO" "ICO Complaints");
    ("INBOX/Complaints/PHSO", mkFolderMapping "KV_PHSO" "PHSO Complaints");
    ("INBOX/Complaints/Bar Standards",
       mkFolderMapping "KV_BAR_STANDARDS" "Bar Standards Board");
    ("INBOX/Complaints/Parliament",
       mkFolderMapping "KV_PARLIAMENT" "Parliamentary Complaints") ].

(** ** Faults and promise outcomes *)

(** What a handler can throw. *)
Inductive Fault : Type :=
  | UnknownNamespace (message : string)  (* the [Error] thrown by [resolveKV] *)
  | TypeError (message : string)         (* a method called on what is no store *)
  | InvalidParams (message : string)     (* arguments refused by the input schema *)
  | StoreFault (message : string).       (* a KV operation whose promise rejects *)

(** The state of an awaited promise.  [Pending] is a promise that has not
    settled when the observation stops: the fuel of a loop ran out, or the
    backend never answers. *)
Inductive Outcome (A : Type) : Type :=
  | Fulfilled (a : A)
  | Rejected (e : Fault)
  | Pending.
Arguments Fulfilled {A} a.
Arguments Rejected {A} e.
Arguments Pending {A}.

(** ** index.ts, helpers *)

Definition unknown_namespace_message (nameOrBinding : string) : string :=
  "Unknown namespace: " +:+ dquote +:+ nameOrBinding +:+ dquote +:+ ". Available: "
    +:+ String.concat ", " (Object_keys NAMESPACE_MAP).

(** [resolveKV]: the binding name is tried first, then the human-readable
    name; otherwise the function throws.  The value returned is whatever
    [env] holds under the name, a store or an inherited member.  The read
    [NAMESPACE_MAP[nameOrBinding]] is reached only when
    [nameOrBinding in env] is false, hence for a name that is not
    inherited: it gives the own entry or [undefined]
    ([resolveKV_table_read] below). *)
Definition resolveKV (env : Env) (nameOrBinding : string)
  : Fault + Slot KVNamespace :=
  if in_env env nameOrBinding then inr (env_get env nameOrBinding)
  else
    match record_get NAMESPACE_MAP nameOrBinding with
    | Some bindingKey =>
        if truthy bindingKey && in_env env bindingKey
        then inr (env_get env bindingKey)
        else inl (UnknownNamespace (unknown_namespace_message nameOrBinding))
    | None => inl (UnknownNamespace (unknown_namespace_message nameOrBinding))
    end.

(** ** The Workers KV interface *)

(** Argument of [kv.list]. *)
Record ListOptions : Type := mkListOptions {
  opt_prefix : option string;
  opt_cursor : option string;
  opt_limit : option nat
}.

(** Result of [kv.list]; [keys] holds the [name] of each listed key. *)
Record ListResult : Type := mkListResult {
  keys : list string;
  list_complete : bool;
  cursor : option string
}.

(** The [metadata] object handed to [kv.put]. *)
Definition PutMetadata : Type := list (string * string).

(** The operations of [KVNamespace] the worker calls, as transitions of
    the outside world [W], and the clock read by [new Date()].  Nothing is
    assumed about them: a store may fail, answer anything, or change
    between two calls. *)
Class KVBackend (W : Type) : Type := {
  kv_list : KVNamespace → ListOptions → W → Outcome ListResult * W;
  kv_get : KVNamespace → string → W → Outcome (option string) * W;
  kv_put : KVNamespace → string → string → PutMetadata → W → Outcome unit * W;
  date_now : W → string
}.

(** One store call as the worker issued it, with the way it settled. *)
Inductive Event : Type :=
  | EvList (kv : KVNamespace) (o : ListOptions) (res : Outcome ListResult)
  | EvGet (kv : KVNamespace) (key : string) (res : Outcome (option string))
  | EvPut (kv : KVNamespace) (key value : string) (meta : PutMetadata)
          (res : Outcome unit).

Definition is_list_call (e : Event) : bool :=
  match e with EvList _ _ _ => true | _ => false end.

(** Number of [kv.list] calls in a trace. *)
Definition page_calls (t : list Event) : nat := length (filter is_list_call t).

(** The state a handler runs in: the outside world and the store calls
    issued so far, oldest first. *)
Record Run (W : Type) : Type := mkRun {
  world : W;
  trace : list Event
}.
Arguments mkRun {W} world trace.
Arguments world {W} r.
Arguments trace {W} r.

(** An [async] computation. *)
Definition Async (W A : Type) : Type := Run W → Outcome A * Run W.

Definition ret {W A : Type} (a : A) : Async W A := λ r, (Fulfilled a, r).

Definition throw {W A : Type} (e : Fault) : Async W A := λ r, (Rejected e, r).

Definition never {W A : Type} : Async W A := λ r, (Pending, r).

Definition bind {W A B : Type} (m : Async W A) (k : A → Async W B) : Async W B :=
  λ r, match m r with
       | (Fulfilled a, r') => k a r'
       | (Rejected e, r') => (Rejected e, r')
       | (Pending, r') => (Pending, r')
       end.

(** [try { m } catch { h }]. *)
Definition try_catch {W A : Type} (m h : Async W A) : Async W A :=
  λ r, match m r with
       | (Rejected _, r') => h r'
       | other => other
       end.

(** A synchronous call that returns or throws. *)
Definition sync {W A : Type} (x : Fault + A) : Async W A :=
  match x with
  | inl e => throw e
  | inr a => ret a
  end.

Declare Scope async_scope.
Delimit Scope async_scope with async.
Notation "'let*' x ':=' m 'in' k" := (bind m (λ x, k))
  (at level 10, x name, m at level 100, k at level 200) : async_scope.
Notation "'do' m 'then' k" := (bind m (λ _, k))
  (at level 10, m at level 100, k at level 200) : async_scope.

(** ** Tool results *)

(** The values handed to [JSON.stringify].  [JDict] is an object filled
    property by property ([results], [stats]); [JObj] is an object
    literal. *)
#[local] Unset Elimination Schemes.
Inductive Json : Type :=
  | JNull
  | JNum (n : Z)
  | JBool (b : bool)
  | JStr (s : string)
  | JArr (items : list Json)
  | JObj (props : list (string * Json))
  | JDict (entries : gmap string Json).
#[local] Set Elimination Schemes.

(** The [text] of the single content item of a tool result. *)
Inductive Payload : Type :=
  | PlainText (s : string)
  | JsonText (j : Json).

(** [{ content: [{ type: "text", text }], isError }]; an absent [isError]
    is [false]. *)
Record ToolResult : Type := mkToolResult {
  text : Payload;
  isError : bool
}.

Definition json_of_value (v : option string) : Json :=
  match v with
  | Some s => JStr s
  | None => JNull
  end.

(** ** index.ts, store calls *)

Section Worker.
Context {W : Type} {B : KVBackend W}.

Local Open Scope async_scope.

(** The [TypeError] of a method read on [undefined]. *)
Definition undefined_receiver (method : string) : Fault :=
  TypeError ("Cannot read properties of undefined (reading '" +:+ method +:+ "')").

(** The [TypeError] of a call of [kv.method] where [kv] is a member of
    [Object.prototype]: none of them has a property [list], [get] or
    [put], so what is called is [undefined].  The message names the
    receiver [kv], as every call of [list] and [get] in [index.ts] does;
    the receivers of the two [put] calls of [email_store] are never such
    members ([email_store_receivers] below). *)
Definition not_a_function (method : string) : Fault :=
  TypeError ("kv." +:+ method +:+ " is not a function").

(** [await kv.list(o)], for whatever [kv] holds at run time. *)
Definition await_list (kv : Slot KVNamespace) (o : ListOptions)
  : Async W ListResult :=
  match kv with
  | Undefined => throw (undefined_receiver "list")
  | Inherited _ => throw (not_a_function "list")
  | Own h => λ r,
      let '(res, w') := kv_list h o (world r) in
      (res, mkRun w' (trace r ++ [EvList h o res])%list)
  end.

(** [await kv.get(key)]. *)
Definition await_get (kv : Slot KVNamespace) (key : string)
  : Async W (option string) :=
  match kv with
  | Undefined => throw (undefined_receiver "get")
  | Inherited _ => throw (not_a_function "get")
  | Own h => λ r,
      let '(res, w') := kv_get h key (world r) in
      (res, mkRun w' (trace r ++ [EvGet h key res])%list)
  end.

(** [await kv.put(key, value, { metadata: meta })], where [meta] is
    computed from the clock just before the call. *)
Definition await_put (kv : Slot KVNamespace) (key value : string)
    (meta : string → PutMetadata) : Async W unit :=
  match kv with
  | Undefined => throw (undefined_receiver "put")
  | Inherited _ => throw (not_a_function "put")
  | Own h => λ r,
      let m := meta (date_now (world r)) in
      let '(res, w') := kv_put h key value m (world r) in
      (res, mkRun w' (trace r ++ [EvPut h key value m res])%list)
  end.

(** [listAllKeys]: the [do ... while (cursor)] loop, one iteration per
    unit of fuel. *)
Fixpoint listAllKeys_loop (fuel : nat) (kv : Slot KVNamespace)
    (pfx : option string) (cur : option string) (all : list string)
  : Async W (list string) :=
  match fuel with
  | 0 => never
  | S fuel' =>
      let* result := await_list kv (mkListOptions pfx cur (Some 1000)) in
      let all' := (all ++ keys result)%list in
      let cur' := if list_complete result then None else cursor result in
      if truthy_opt cur' then listAllKeys_loop fuel' kv pfx cur' all'
      else ret all'
  end.

Definition listAllKeys (fuel : nat) (kv : Slot KVNamespace)
    (pfx : option string) : Async W (list string) :=
  listAllKeys_loop fuel kv pfx None [].

(** ** index.ts, tool handlers *)

(** [kv_keys_count]. *)
Definition kv_keys_count (fuel : nat) (env : Env) (namespace : string)
    (pfx : option string) : Async W ToolResult :=
  let* kv := sync (resolveKV env namespace) in
  let* all := listAllKeys fuel kv pfx in
  ret (mkToolResult
         (JsonText (JObj [ ("count", JNum (Z.of_nat (length all)));
                           ("prefix", if truthy_opt pfx then json_of_value pfx
                                      else JNull) ]))
         false).

Definition key_not_found (key : string) : ToolResult :=
  mkToolResult
    (PlainText ("Key " +:+ dquote +:+ key +:+ dquote +:+ " not found"))
    true.

(** [kv_key_get]. *)
Definition kv_key_get (env : Env) (namespace key : string) : Async W ToolResult :=
  let* kv := sync (resolveKV env namespace) in
  let* value := await_get kv key in
  match value with
  | None => ret (key_not_found key)
  | Some v => ret (mkToolResult (PlainText v) false)
  end.

(** [keys.map(async (key) => { results[key] = await kv.get(key); })]:
    every read is issued, in the order of [keys], before any of them
    settles; each arrow function owns the promise of its read. *)
Fixpoint spawn_reads (kv : Slot KVNamespace) (ks : list string) (r : Run W)
  : list (string * Outcome (option string)) * Run W :=
  match ks with
  | [] => ([], r)
  | key :: ks' =>
      let '(res, r1) := await_get kv key r in
      let '(rest, r2) := spawn_reads kv ks' r1 in
      ((key, res) :: rest, r2)
  end.

Definition has_settled {A : Type} (o : Outcome A) : bool :=
  match o with
  | Pending => false
  | _ => true
  end.

(** The object [results]: its own properties, and whether its prototype
    is still [Object.prototype]. *)
Record Results : Type := mkResults {
  own_props : gmap string (option string);
  has_prototype : bool
}.

(** [const results = {}]. *)
Definition empty_results : Results := mkResults ∅ true.

(** [results[key] = v].  The assignment creates or overwrites the own
    property [key], except for the key [__proto__] while [results] still
    inherits from [Object.prototype]: it then runs the inherited setter,
    which makes no property, ignores a string, and on [null] cuts
    [results] off from its prototype. *)
Definition assign (results : Results) (key : string) (v : option string)
  : Results :=
  if String.eqb key "__proto__" && has_prototype results
  then match v with
       | Some _ => results
       | None => mkResults (own_props results) false
       end
  else mkResults (<[key := v]> (own_props results)) (has_prototype results).

(** The settled reads resume in an order the event loop chooses:
    [picks] gives, for each resumption, the position of the read that
    resumes next among those still waiting.  A fulfilled read performs
    its assignment [results[key] = value]; the first rejected one
    rejects the [Promise.all]. *)
Fixpoint resume_reads (n : nat) (picks : list nat)
    (waiting : list (string * Outcome (option string)))
    (results : Results)
  : Outcome Results :=
  match n with
  | 0 => Fulfilled results
  | S n' =>
      let i := hd 0 picks `mod` length waiting in
      match waiting !! i with
      | Some (key, Fulfilled v) =>
          resume_reads n' (tl picks) (delete i waiting) (assign results key v)
      | Some (_, Rejected e) => Rejected e
      | Some (_, Pending) | None => Pending
      end
  end.

(** [await Promise.all(promises)] over the reads of [spawn_reads]: a read
    that never settles keeps the whole pending unless another rejects. *)
Definition promise_all_reads (picks : list nat)
    (reads : list (string * Outcome (option string)))
    (results : Results)
  : Outcome Results :=
  let settled := filter (λ x, has_settled x.2 = true) reads in
  match resume_reads (length settled) picks settled results with
  | Fulfilled results' =>
      if bool_decide (length settled = length reads) then Fulfilled results'
      else Pending
  | other => other
  end.

(** [kv_keys_bulk_get], the handler; [JSON.stringify] writes the own
    properties of [results]. *)
Definition kv_keys_bulk_get (picks : list nat) (env : Env) (namespace : string)
    (ks : list string) : Async W ToolResult :=
  let* kv := sync (resolveKV env namespace) in
  let* results := (λ r,
    let '(reads, r') := spawn_reads kv ks r in
    (promise_all_reads picks reads empty_results, r')) in
  ret (mkToolResult (JsonText (JDict (json_of_value <$> own_props results))) false).

(** [kv_keys_bulk_get] behind its input schema
    [keys: z.array(z.string()).max(100)]. *)
Definition kv_keys_bulk_get_tool (picks : list nat) (env : Env)
    (namespace : string) (ks : list string) : Async W ToolResult :=
  if (100 <? length ks)%nat
  then throw (InvalidParams "Array must contain at most 100 element(s)")
  else kv_keys_bulk_get picks env namespace ks.

(** [namespaces_list]. *)
Definition namespaces_categories : list (string * list string) :=
  [ ("system", ["bridge-accounts"; "email-bodies"]);
    ("courts", ["court-of-appeal"; "chancery"; "admin-court"; "kings-bench";
                "supreme"; "clerkenwell"; "central-london"]);
    ("claimants", ["liu"; "hk-law"; "lessel"; "letting-agents"; "barristers"]);
    ("government", ["gld"; "us-state-dept"; "estonia"]);
    ("complaints", ["hmcts"; "ico"; "phso"; "bar-standards"; "parliament"]) ].

Definition namespaces_list : Async W ToolResult :=
  ret (mkToolResult
         (JsonText
            (JObj [ ("total", JNum (Z.of_nat (length (Object_keys NAMESPACE_MAP))));
                    ("categories",
                      JObj (map (λ c, (c.1, JArr (map JStr c.2)))
                                namespaces_categories)) ]))
         false).

(** [email_folder_stats].  [mapping] is what [FOLDER_BINDING_MAP[folder]]
    gives: for the name of a member of [Object.prototype] it is that
    member, which passes the [!mapping] guard and has neither [binding]
    nor [humanName]. *)
Definition email_folder_stats (fuel : nat) (env : Env) (folder : string)
  : Async W ToolResult :=
  let mapping := record_read FOLDER_BINDING_MAP folder in
  if negb (is_defined mapping) then
    ret (mkToolResult
           (PlainText ("Folder " +:+ dquote +:+ folder +:+ dquote
              +:+ " is not mapped. Use email_list_folders to see available folders."))
           true)
  else
    let kv := env_get env (property_key (field binding mapping)) in
    let* ks := listAllKeys fuel kv (Some "email:") in
    ret (mkToolResult
           (JsonText (JObj ([ ("folder", JStr folder) ]
                            ++ optional "humanName" (JStr <$> field humanName mapping)
                            ++ optional "binding" (JStr <$> field binding mapping)
                            ++ [ ("emailCount", JNum (Z.of_nat (length ks))) ])))
           false).

(** The [metadata] objects of the two writes of [email_store]. *)
Definition folder_put_metadata (folder body_key now : string) : PutMetadata :=
  [ ("folder", folder); ("body_uuid", body_key); ("stored_at", now) ].

Definition body_metadata (folder : string) (human : option string) (now : string)
  : PutMetadata :=
  [ ("folder", folder) ] ++ optional "humanName" human ++ [ ("stored_at", now) ].

(** The second one for an entry of [FOLDER_BINDING_MAP]. *)
Definition body_put_metadata (folder : string) (mapping : FolderMapping)
    (now : string) : PutMetadata :=
  body_metadata folder (Some (humanName mapping)) now.

Definition email_store_success (key body_key : string) : ToolResult :=
  mkToolResult
    (JsonText (JObj [ ("success", JBool true);
                      ("metadata_key", JStr key);
                      ("body_key", JStr body_key) ]))
    false.

Definition not_mapped (folder : string) : ToolResult :=
  mkToolResult
    (PlainText ("Folder " +:+ dquote +:+ folder +:+ dquote +:+ " is not mapped"))
    true.

(** [email_store]; [mapping] as in [email_folder_stats]. *)
Definition email_store (env : Env) (folder key metadata body_key body : string)
  : Async W ToolResult :=
  let mapping := record_read FOLDER_BINDING_MAP folder in
  if negb (is_defined mapping) then ret (not_mapped folder)
  else
    let folderKV := env_get env (property_key (field binding mapping)) in
    (* Store metadata in folder namespace *)
    do await_put folderKV key metadata (folder_put_metadata folder body_key)
    then
    (* Store body in shared namespace *)
    do await_put (env_get env "EMAIL_BODIES") body_key body
         (body_metadata folder (field humanName mapping))
    then
    ret (email_store_success key body_key).

(** [pipeline_status]: the body of the [for] loop for one entry that is
    not skipped.  [stats[name] = ...] is an assignment under a key of
    [NAMESPACE_MAP], none of which is [__proto__]: it creates or
    overwrites that property. *)
Definition probe_namespace (env : Env) (name bindingKey : string)
    (stats : gmap string Z) : Async W (gmap string Z) :=
  try_catch
    (let kv := env_get env bindingKey in
     let* result := await_list kv (mkListOptions None None (Some 1)) in
     let stats1 := <[name := Z.of_nat (length (keys result))]> stats in
     ret (if negb (list_complete result) then <[name := (-1)%Z]> stats1 else stats1))
    (ret (<[name := (-1)%Z]> stats)).

Fixpoint scan_namespaces (env : Env) (entries : list (string * string))
    (stats : gmap string Z) : Async W (gmap string Z) :=
  match entries with
  | [] => ret stats
  | (name, bindingKey) :: rest =>
      if String.eqb name "email-bodies" || String.eqb name "bridge-accounts"
      then scan_namespaces env rest stats
      else
        let* stats' := probe_namespace env name bindingKey stats in
        scan_namespaces env rest stats'
  end.

Definition pipeline_status_note : string :=
  "-1 means namespace has >1 key (use kv_keys_count for exact)".

Definition pipeline_status (env : Env) : Async W ToolResult :=
  let* stats := scan_namespaces env (Object_entries NAMESPACE_MAP) ∅ in
  ret (mkToolResult
         (JsonText (JObj [ ("status", JStr "ok");
                           ("namespace_counts", JDict (JNum <$> stats));
                           ("note", JStr pipeline_status_note) ]))
         false).

End Worker.

(** ** A reference backend: well-behaved in-memory stores *)

(** Modelled from the spec: the key-value stores behind the bindings,
    which the worker calls but the repository does not implement (the
    per-namespace store of section 4.2: list with cursor and limit, get,
    put with metadata).  Each store is a finite map; [list] serves the
    keys that match the prefix page by page in a fixed order, honouring
    [limit] up to the store's own page cap, reports completion with the
    last page, and hands out the offset of the next page as cursor; any
    call can be made to fail, and a failed call changes nothing. *)
Module MemKV.

Record Entry : Type := mkEntry {
  value : string;
  metadata : PutMetadata
}.

Inductive Op : Type :=
  | OpList (kv : KVNamespace)
  | OpGet (kv : KVNamespace) (key : string)
  | OpPut (kv : KVNamespace) (key : string).

Record World : Type := mkWorld {
  stores : gmap KVNamespace (gmap string Entry);
  page_max : nat;
  failing : Op → bool;
  clock : string
}.

Definition store_of (w : World) (kv : KVNamespace) : gmap string Entry :=
  default ∅ (stores w !! kv).

(** The keys of a store, in the order the store enumerates them. *)
Definition key_names (st : gmap string Entry) : list string :=
  (map_to_list st).*1.

Definition has_prefix (pfx : option string) (k : string) : bool :=
  match pfx with
  | Some p => String.prefix p k
  | None => true
  end.

Definition matching (pfx : option string) (st : gmap string Entry) : list string :=
  filter (λ k, has_prefix pfx k = true) (key_names st).

Definition cursor_of (offset : nat) : string :=
  NilEmpty.string_of_uint (Nat.to_uint offset).

Definition offset_of (c : string) : option nat :=
  Nat.of_uint <$> NilEmpty.uint_of_string c.

Definition unavailable : Fault := StoreFault "KV operation failed".

Definition page_size (w : World) (o : ListOptions) : nat :=
  Nat.min (default (page_max w) (opt_limit o)) (page_max w).

(** Where a listing resumes: at the start, or at the offset the cursor
    encodes. *)
Definition start_offset (c : option string) : option nat :=
  match c with
  | None => Some 0
  | Some c => offset_of c
  end.

Definition page_at (w : World) (kv : KVNamespace) (o : ListOptions) (offset : nat)
  : ListResult :=
  let ks := matching (opt_prefix o) (store_of w kv) in
  let next := offset + page_size w o in
  let complete := length ks <=? next in
  mkListResult (take (page_size w o) (drop offset ks)) complete
    (if complete then None else Some (cursor_of next)).

Definition list_page (kv : KVNamespace) (o : ListOptions) (w : World)
  : Outcome ListResult * World :=
  if failing w (OpList kv) then (Rejected unavailable, w)
  else
    match start_offset (opt_cursor o) with
    | None => (Rejected (StoreFault "Invalid cursor"), w)
    | Some offset => (Fulfilled (page_at w kv o offset), w)
    end.

Definition get_value (kv : KVNamespace) (key : string) (w : World)
  : Outcome (option string) * World :=
  if failing w (OpGet kv key) then (Rejected unavailable, w)
  else (Fulfilled (value <$> store_of w kv !! key), w).

Definition put_value (kv : KVNamespace) (key val : string) (meta : PutMetadata)
    (w : World) : Outcome unit * World :=
  if failing w (OpPut kv key) then (Rejected unavailable, w)
  else
    (Fulfilled (),
     mkWorld (<[kv := <[key := mkEntry val meta]> (store_of w kv)]> (stores w))
             (page_max w) (failing w) (clock w)).

#[export] Instance backend : KVBackend World := {|
  kv_list := list_page;
  kv_get := get_value;
  kv_put := put_value;
  date_now := clock
|}.

Definition healthy : Op → bool := λ _, false.

End MemKV.

(** ** A backend whose listing never completes *)

(** Every [list] call answers an empty page, [list_complete: false] and a
    fresh-looking cursor. *)
Module Endless.

Definition World : Type := unit.

Definition list_page (kv : KVNamespace) (o : ListOptions) (w : World)
  : Outcome ListResult * World :=
  (Fulfilled (mkListResult [] false (Some "more")), w).

#[export] Instance backend : KVBackend World := {|
  kv_list := list_page;
  kv_get := λ _ _ w, (Fulfilled None, w);
  kv_put := λ _ _ _ _ w, (Fulfilled (), w);
  date_now := λ _, "1970-01-01T00:00:00.000Z"
|}.

End Endless.

(** ** Vocabulary of the statements *)

(** A name occurs in a message. *)
Definition occurs_in (needle hay : string) : Prop :=
  ∃ before after : string, hay = before +:+ needle +:+ after.

(** The request [listAllKeys] sends for the page at cursor [cur]. *)
Definition list_request (pfx cur : option string) : ListOptions :=
  mkListOptions pfx cur (Some 1000).

(** The cursor [listAllKeys] keeps after a page: [undefined] once the
    store reports completion. *)
Definition next_cursor (res : ListResult) : option string :=
  if list_complete res then None else cursor res.

(** [evs] is a run of page calls on [kv] that starts at cursor [cur], each
    answered by a page that makes the loop go on (not complete, with a
    truthy cursor), and each sent with the cursor of the page before. *)
Fixpoint continuing_pages (kv : KVNamespace) (pfx cur : option string)
    (evs : list Event) : Prop :=
  match evs with
  | [] => True
  | EvList kv' o (Fulfilled res) :: evs' =>
      kv' = kv ∧ o = list_request pfx cur ∧
      truthy_opt (next_cursor res) = true ∧
      continuing_pages kv pfx (next_cursor res) evs'
  | _ => False
  end.

(** The cursor in hand after the pages [evs]. *)
Fixpoint cursor_after (cur : option string) (evs : list Event) : option string :=
  match evs with
  | [] => cur
  | EvList _ _ (Fulfilled res) :: evs' => cursor_after (next_cursor res) evs'
  | _ :: evs' => cursor_after cur evs'
  end.

(** The keys the pages [evs] delivered, in order. *)
Fixpoint pages_keys (evs : list Event) : list string :=
  match evs with
  | [] => []
  | EvList _ _ (Fulfilled res) :: evs' => keys res ++ pages_keys evs'
  | _ :: evs' => pages_keys evs'
  end.

(** How [listAllKeys] stopped, read off its outcome: [last] is the call
    that ended the loop, after the continuing pages [evs]. *)
Definition stopped_by (kv : KVNamespace) (pfx : option string) (fuel : nat)
    (all : list string) (evs last : list Event) (cur : option string)
    (out : Outcome (list string)) : Prop :=
  match out with
  | Fulfilled ks =>
      ∃ res, last = [EvList kv (list_request pfx cur) (Fulfilled res)] ∧
             truthy_opt (next_cursor res) = false ∧
             ks = all ++ pages_keys evs ++ keys res
  | Rejected e => last = [EvList kv (list_request pfx cur) (Rejected e)]
  | Pending =>
      (last = [] ∧ length evs = fuel) ∨
      last = [EvList kv (list_request pfx cur) Pending]
  end.

(** A store whose every page on [kv] makes the loop go on. *)
Definition never_completes {W : Type} {B : KVBackend W} (kv : KVNamespace) : Prop :=
  ∀ (o : ListOptions) (w : W), ∃ res w',
    kv_list kv o w = (Fulfilled res, w') ∧ truthy_opt (next_cursor res) = true.

(** [ceil (n / p)]. *)
Definition ceil_div (n p : nat) : nat := (n + p - 1) / p.

(** The outcome of [kv_keys_bulk_get] once its [Promise.all] is awaited. *)
Definition and_then_map (res : Outcome Results) : Outcome ToolResult :=
  match res with
  | Fulfilled results =>
      Fulfilled (mkToolResult (JsonText (JDict (json_of_value <$> own_props results)))
                              false)
  | Rejected e => Rejected e
  | Pending => Pending
  end.

(** The outcome of a handler that awaits [res] and then returns [b]. *)
Definition and_then {A B : Type} (res : Outcome A) (b : B) : Outcome B :=
  match res with
  | Fulfilled _ => Fulfilled b
  | Rejected e => Rejected e
  | Pending => Pending
  end.

(** An environment with exactly the declared bindings, each bound to a
    store of its own. *)
Definition production_env : Env :=
  list_to_map (zip Env_bindings (seq 1 (length Env_bindings))).

(** A small deployment on the reference backend: the Liu store is [1],
    the bodies store is [2]; both start empty. *)
Definition sample_env : Env := {[ "KV_LIU" := 1; "EMAIL_BODIES" := 2 ]}.

Definition sample_world (f : MemKV.Op → bool) : MemKV.World :=
  MemKV.mkWorld ∅ 1000 f "2026-01-01T00:00:00.000Z".

(** The Liu store holds two emails and one other key. *)
Definition liu_world : MemKV.World :=
  MemKV.mkWorld
    {[ 1 := {[ "email:1" := MemKV.mkEntry "{}" [];
               "email:2" := MemKV.mkEntry "{}" [];
               "note" := MemKV.mkEntry "x" [] ]} ]}
    2 (λ _, false) "2026-01-01T00:00:00.000Z".

(** A fleet: the Liu store [1] is empty, the ICO store [2] holds one key,
    the GLD store [3] holds two, the HMCTS store [4] rejects [list]; no
    other binding is present. *)
Definition fleet_env : Env :=
  {[ "KV_LIU" := 1; "KV_ICO" := 2; "KV_GLD" := 3; "KV_HMCTS" := 4 ]}.

Definition hmcts_down (op : MemKV.Op) : bool :=
  match op with
  | MemKV.OpList kv => Nat.eqb kv 4
  | _ => false
  end.

Definition fleet_world : MemKV.World :=
  MemKV.mkWorld
    {[ 2 := {[ "a" := MemKV.mkEntry "1" [] ]};
       3 := {[ "a" := MemKV.mkEntry "1" []; "b" := MemKV.mkEntry "2" [] ]} ]}
    1000 hmcts_down "2026-01-01T00:00:00.000Z".

(** What the health scan is to record for the namespace behind
    [bindingKey], on the reference backend: the key count 0 or 1, and -1
    for two keys or more, for a failing probe, and for a missing store. *)
Definition health_count (env : Env) (w : MemKV.World) (bindingKey : string)
    (c : Z) : Prop :=
  (∀ kv, env !! bindingKey = Some kv → MemKV.failing w (MemKV.OpList kv) = false →
     (size (MemKV.store_of w kv) = 0 → c = 0%Z) ∧
     (size (MemKV.store_of w kv) = 1 → c = 1%Z) ∧
     (2 ≤ size (MemKV.store_of w kv) → c = (-1)%Z)) ∧
  (∀ kv, env !! bindingKey = Some kv → MemKV.failing w (MemKV.OpList kv) = true →
     c = (-1)%Z) ∧
  (env !! bindingKey = None → c = (-1)%Z).

(** The names [pipeline_status] skips. *)
Definition skipped (name : string) : bool :=
  String.eqb name "email-bodies" || String.eqb name "bridge-accounts".

(** How often the key [k] is requested in [ks]. *)
Definition requests (k : string) (ks : list string) : nat :=
  length (filter (λ k', k' = k) ks).

(** A read that was fulfilled, a read that was rejected. *)
Definition read_fulfilled (x : string * Outcome (option string)) : Prop :=
  ∃ v, x.2 = Fulfilled v.

Definition read_rejected (x : string * Outcome (option string)) : Prop :=
  ∃ e, x.2 = Rejected e.

(** The Liu store [1] holds the key [a]; every read of the key [b]
    fails. *)
Definition read_b_down (op : MemKV.Op) : bool :=
  match op with
  | MemKV.OpGet _ key => String.eqb key "b"
  | _ => false
  end.

Definition bulk_world (f : MemKV.Op → bool) : MemKV.World :=
  MemKV.mkWorld {[ 1 := {[ "a" := MemKV.mkEntry "1" [] ]} ]} 1000 f
    "2026-01-01T00:00:00.000Z".

(** The Liu store [1] holds the keys [a] and [__proto__]. *)
Definition proto_world : MemKV.World :=
  MemKV.mkWorld
    {[ 1 := {[ "a" := MemKV.mkEntry "1" []; "__proto__" := MemKV.mkEntry "p" [] ]} ]}
    1000 (λ _, false) "2026-01-01T00:00:00.000Z".

(** Every put into the bodies store [2] fails. *)
Definition bodies_down (op : MemKV.Op) : bool :=
  match op with
  | MemKV.OpPut kv _ => Nat.eqb kv 2
  | _ => false
  end.

(** ** index.ts, further handlers *)

Section MoreHandlers.
Context {W : Type} {B : KVBackend W}.

Local Open Scope async_scope.

(** The [cursor] property of the result of [kv_keys_list]: [null] on a
    complete page, the store's cursor otherwise; a property whose value
    is [undefined] is dropped by [JSON.stringify]. *)
Definition cursor_property (result : ListResult) : list (string * Json) :=
  if list_complete result then [ ("cursor", JNull) ]
  else match cursor result with
       | Some c => [ ("cursor", JStr c) ]
       | None => []
       end.

(** [kv_keys_list]; [limit] leaves the input schema with its default 100
    (limits that are natural numbers). *)
Definition kv_keys_list (env : Env) (namespace : string) (pfx : option string)
    (limit : option nat) (cur : option string) : Async W ToolResult :=
  let limit := default 100 limit in
  let* kv := sync (resolveKV env namespace) in
  let* result := await_list kv (mkListOptions pfx cur (Some limit)) in
  ret (mkToolResult
         (JsonText
            (JObj ([ ("keys", JArr (map JStr (keys result)));
                     ("count", JNum (Z.of_nat (length (keys result))));
                     ("list_complete", JBool (list_complete result)) ]
                   ++ cursor_property result)))
         false).



End MoreHandlers.

(** ** A backend whose pages carry an empty cursor *)

(** Every [list] call answers the single key [a], [list_complete: false]
    and the empty string as cursor. *)
Module Truncating.

Definition World : Type := unit.

Definition list_page (kv : KVNamespace) (o : ListOptions) (w : World)
  : Outcome ListResult * World :=
  (Fulfilled (mkListResult ["a"] false (Some "")), w).

#[export] Instance backend : KVBackend World := {|
  kv_list := list_page;
  kv_get := λ _ _ w, (Fulfilled None, w);
  kv_put := λ _ _ _ _ w, (Fulfilled (), w);
  date_now := λ _, "1970-01-01T00:00:00.000Z"
|}.

End Truncating.

(** ** Further vocabulary *)

(** The event of a read of [spawn_reads]. *)
Definition read_event (kv : KVNamespace) (x : string * Outcome (option string))
  : Event :=
  EvGet kv x.1 x.2.

(** A probe of the health scan: a [list] call with [limit: 1] and nothing
    else. *)
Definition is_probe (e : Event) : Prop :=
  ∃ kv res, e = EvList kv (mkListOptions None None (Some 1)) res.

(** The names the health scan reports on. *)
Definition scanned_names : list string :=
  filter (λ name, skipped name = false) (Object_keys NAMESPACE_MAP).

(** The not-mapped result of [email_folder_stats]. *)
Definition stats_not_mapped (folder : string) : ToolResult :=
  mkToolResult
    (PlainText ("Folder " +:+ dquote +:+ folder +:+ dquote
       +:+ " is not mapped. Use email_list_folders to see available folders."))
    true.

(** The result of [email_folder_stats] for a mapped folder. *)
Definition stats_result (folder : string) (mapping : FolderMapping) (n : nat)
  : ToolResult :=
  mkToolResult
    (JsonText (JObj [ ("folder", JStr folder);
                      ("humanName", JStr (humanName mapping));
                      ("binding", JStr (binding mapping));
                      ("emailCount", JNum (Z.of_nat n)) ]))
    false.

(** The result of [kv_keys_count]. *)
Definition count_result (n : nat) (pfx : option string) : ToolResult :=
  mkToolResult
    (JsonText (JObj [ ("count", JNum (Z.of_nat n));
                      ("prefix", if truthy_opt pfx then json_of_value pfx
                                 else JNull) ]))
    false.

(** The world a successful [put] on the reference backend leaves. *)
Definition world_with (w : MemKV.World) (kv : KVNamespace) (key val : string)
    (meta : PutMetadata) : MemKV.World :=
  MemKV.mkWorld
    (<[kv := <[key := MemKV.mkEntry val meta]> (MemKV.store_of w kv)]> (MemKV.stores w))
    (MemKV.page_max w) (MemKV.failing w) (MemKV.clock w).

(** The result of [kv_keys_list] for one page. *)
Definition keys_list_result (page : ListResult) : ToolResult :=
  mkToolResult
    (JsonText
       (JObj ([ ("keys", JArr (map JStr (keys page)));
                ("count", JNum (Z.of_nat (length (keys page))));
                ("list_complete", JBool (list_complete page)) ]
              ++ cursor_property page)))
    false.

(** What [kv_key_get] answers for the entry found under a key. *)
Definition get_result (key : string) (found : option MemKV.Entry) : ToolResult :=
  match found with
  | Some e => mkToolResult (PlainText (MemKV.value e)) false
  | None => key_not_found key
  end.

(** The production environment on the reference backend, all stores
    empty and healthy. *)
Definition production_world : MemKV.World :=
  MemKV.mkWorld ∅ 1000 (λ _, false) "2026-01-01T00:00:00.000Z".

(** * Properties *)

(** A closed decidable fact about the static tables, settled by
    evaluation. *)
Ltac by_table := apply (bool_decide_unpack _); by vm_compute.

(** ** Object literals *)

Lemma record_get_elem {V : Type} (o : JSRecord V) (k : string) (v : V) :
  record_get o k = Some v → (k, v) ∈ o.
Proof.
  induction o as [|[k' v'] o IH]; simpl; [done|].
  destruct (String.eqb_spec k' k) as [->|Hne].
  - intros [= ->]. apply list_elem_of_here.
  - intros H. apply list_elem_of_further, IH, H.
Qed.

Lemma record_get_None {V : Type} (o : JSRecord V) (k : string) :
  record_get o k = None ↔ k ∉ Object_keys o.
Proof.
  unfold Object_keys. induction o as [|[k' v'] o IH]; simpl.
  - split; [intros _; apply not_elem_of_nil | done].
  - rewrite not_elem_of_cons. destruct (String.eqb_spec k' k) as [->|Hne].
    + split; [done | intros [? _]; done].
    + rewrite IH. split; [intros ?; split; [congruence | done] | intros [_ ?]; done].
Qed.

Lemma record_get_NoDup {V : Type} (o : JSRecord V) (k : string) (v : V) :
  NoDup (Object_keys o) → (k, v) ∈ o → record_get o k = Some v.
Proof.
  unfold Object_keys. induction o as [|[k' v'] o IH]; simpl.
  - intros _ H. by apply elem_of_nil in H.
  - intros Hnd H. apply NoDup_cons in Hnd as [Hk' Hnd].
    apply elem_of_cons in H as [[= -> ->]|H].
    + by rewrite String.eqb_refl.
    + destruct (String.eqb_spec k' k) as [->|Hne]; [|by apply IH].
      exfalso. apply Hk'. apply list_elem_of_fmap. by exists (k, v).
Qed.

(** ** Ordinary objects *)

Lemma inherited_elem (k : string) : inherited k = true ↔ k ∈ Object_prototype.
Proof. unfold inherited. by rewrite bool_decide_eq_true. Qed.

Lemma inherited_not_elem (k : string) : inherited k = false ↔ k ∉ Object_prototype.
Proof. unfold inherited. by rewrite bool_decide_eq_false. Qed.

Lemma record_read_own {V : Type} (o : JSRecord V) (k : string) (v : V) :
  record_get o k = Some v → record_read o k = Own v.
Proof. unfold record_read. by intros ->. Qed.

Lemma record_read_inherited {V : Type} (o : JSRecord V) (k : string) :
  record_get o k = None → k ∈ Object_prototype → record_read o k = Inherited k.
Proof.
  unfold record_read. intros -> Hk%inherited_elem. simpl. by rewrite Hk.
Qed.

Lemma record_read_undefined {V : Type} (o : JSRecord V) (k : string) :
  record_get o k = None → k ∉ Object_prototype → record_read o k = Undefined.
Proof.
  unfold record_read. intros -> Hk%inherited_not_elem. simpl. by rewrite Hk.
Qed.

Lemma env_get_bound (env : Env) (b : string) (kv : KVNamespace) :
  env !! b = Some kv → env_get env b = Own kv.
Proof. unfold env_get. by intros ->. Qed.

Lemma in_env_bound (env : Env) (b : string) (kv : KVNamespace) :
  env !! b = Some kv → in_env env b = true.
Proof. unfold in_env. by intros ->. Qed.

Lemma env_get_inherited (env : Env) (b : string) :
  env !! b = None → b ∈ Object_prototype → env_get env b = Inherited b.
Proof.
  unfold env_get. intros -> Hb%inherited_elem. simpl. by rewrite Hb.
Qed.

Lemma in_env_inherited (env : Env) (b : string) :
  b ∈ Object_prototype → in_env env b = true.
Proof.
  unfold in_env. intros Hb%inherited_elem. by destruct (env !! b).
Qed.

Lemma env_get_unbound (env : Env) (b : string) :
  env !! b = None → b ∉ Object_prototype → env_get env b = Undefined.
Proof.
  unfold env_get. intros -> Hb%inherited_not_elem. simpl. by rewrite Hb.
Qed.

Lemma in_env_unbound (env : Env) (b : string) :
  env !! b = None → b ∉ Object_prototype → in_env env b = false.
Proof.
  unfold in_env. intros -> Hb%inherited_not_elem. simpl. by rewrite Hb.
Qed.

Lemma string_app_cons (x : ascii) (a b : string) :
  String x a +:+ b = String x (a +:+ b).
Proof. reflexivity. Qed.

Lemma string_app_assoc (a b c : string) : (a +:+ b) +:+ c = a +:+ (b +:+ c).
Proof.
  induction a as [|x a IH]; [done|]. by rewrite !string_app_cons, IH.
Qed.

Lemma string_app_nil_r (a : string) : a +:+ "" = a.
Proof.
  induction a as [|x a IH]; [done|]. by rewrite string_app_cons, IH.
Qed.

Lemma occurs_in_app_r (needle pre hay : string) :
  occurs_in needle hay → occurs_in needle (pre +:+ hay).
Proof.
  intros (b & a & ->). exists (pre +:+ b), a. by rewrite string_app_assoc.
Qed.

Lemma occurs_in_concat (sep name : string) (names : list string) :
  name ∈ names → occurs_in name (String.concat sep names).
Proof.
  induction names as [|x names IH]; [intros H; by apply elem_of_nil in H|].
  intros H. apply elem_of_cons in H as [->|H].
  - destruct names as [|y names]; simpl.
    + exists "", "". by rewrite string_app_nil_r.
    + by exists "", (sep +:+ String.concat sep (y :: names)).
  - destruct names as [|y names]; [by apply elem_of_nil in H|].
    change (String.concat sep (x :: y :: names))
      with (x +:+ (sep +:+ String.concat sep (y :: names))).
    apply occurs_in_app_r, occurs_in_app_r, IH, H.
Qed.

(** ** resolveKV *)

Lemma NAMESPACE_MAP_keys_NoDup : NoDup (Object_keys NAMESPACE_MAP).
Proof. apply (bool_decide_unpack _). by vm_compute. Qed.

Lemma NAMESPACE_MAP_bindings_truthy (name b : string) :
  record_get NAMESPACE_MAP name = Some b → truthy b = true.
Proof.
  intros H%record_get_elem.
  assert (Hall : Forall (λ e : string * string, truthy e.2 = true) NAMESPACE_MAP).
  { apply (bool_decide_unpack _). by vm_compute. }
  rewrite Forall_forall in Hall. apply (Hall _ H).
Qed.

Lemma unknown_namespace_message_lists (s name : string) :
  name ∈ Object_keys NAMESPACE_MAP → occurs_in name (unknown_namespace_message s).
Proof.
  intros H. unfold unknown_namespace_message.
  do 5 apply occurs_in_app_r. by apply occurs_in_concat.
Qed.

(** No registered name, no registered binding and no mapped folder's
    binding is the name of a member of [Object.prototype]. *)
Lemma NAMESPACE_MAP_names_own (name : string) :
  name ∈ Object_prototype → record_get NAMESPACE_MAP name = None.
Proof.
  intros Hin.
  assert (Hall : Forall (λ k, record_get NAMESPACE_MAP k = None) Object_prototype).
  { apply (bool_decide_unpack _). by vm_compute. }
  rewrite Forall_forall in Hall. by apply Hall.
Qed.

Lemma NAMESPACE_MAP_bindings_own (name b : string) :
  record_get NAMESPACE_MAP name = Some b → b ∉ Object_prototype.
Proof.
  intros H%record_get_elem.
  assert (Hall : Forall (λ e : string * string, e.2 ∉ Object_prototype) NAMESPACE_MAP).
  { apply (bool_decide_unpack _). by vm_compute. }
  rewrite Forall_forall in Hall. apply (Hall _ H).
Qed.

(** The second read of [resolveKV] is an own-property read: where
    [nameOrBinding in env] is false, [NAMESPACE_MAP[nameOrBinding]] is the
    entry of the table or [undefined], never an inherited member. *)
Lemma resolveKV_table_read (env : Env) (nameOrBinding : string) :
  in_env env nameOrBinding = false →
  record_read NAMESPACE_MAP nameOrBinding
    = match record_get NAMESPACE_MAP nameOrBinding with
      | Some bindingKey => Own bindingKey
      | None => Undefined
      end.
Proof.
  unfold in_env, has_property, record_read, property.
  destruct (env !! nameOrBinding); [done|]. intros ->.
  by destruct (record_get NAMESPACE_MAP nameOrBinding).
Qed.

Lemma resolveKV_binding (env : Env) (b : string) (kv : KVNamespace) :
  env !! b = Some kv → resolveKV env b = inr (Own kv).
Proof.
  intros H. unfold resolveKV. by rewrite (in_env_bound _ _ _ H), (env_get_bound _ _ _ H).
Qed.

Lemma resolveKV_inherited (env : Env) (k : string) :
  env !! k = None → k ∈ Object_prototype → resolveKV env k = inr (Inherited k).
Proof.
  intros Hk Hin. unfold resolveKV.
  by rewrite (in_env_inherited _ _ Hin), (env_get_inherited _ _ Hk Hin).
Qed.

Lemma resolveKV_name (env : Env) (name b : string) (kv : KVNamespace) :
  env !! name = None → name ∉ Object_prototype →
  record_get NAMESPACE_MAP name = Some b → env !! b = Some kv →
  resolveKV env name = inr (Own kv).
Proof.
  intros Hname Hown Hb Hkv. unfold resolveKV.
  rewrite (in_env_unbound _ _ Hname Hown), Hb.
  by rewrite (NAMESPACE_MAP_bindings_truthy _ _ Hb), (in_env_bound _ _ _ Hkv),
    (env_get_bound _ _ _ Hkv).
Qed.

Lemma resolveKV_unknown (env : Env) (name : string) :
  env !! name = None → name ∉ Object_prototype →
  (∀ b, record_get NAMESPACE_MAP name = Some b → env !! b = None) →
  resolveKV env name = inl (UnknownNamespace (unknown_namespace_message name)).
Proof.
  intros Hname Hown Hnone. unfold resolveKV.
  rewrite (in_env_unbound _ _ Hname Hown).
  destruct (record_get NAMESPACE_MAP name) as [b|] eqn:Hb; [|done].
  rewrite (in_env_unbound env b (Hnone b eq_refl) (NAMESPACE_MAP_bindings_own _ _ Hb)).
  by rewrite andb_false_r.
Qed.

(** C4.  [resolveKV] on every input.  It answers with the store bound
    under the input taken as a binding name whenever there is one.  When
    there is none and the input is not the name of a member of
    [Object.prototype], it reads the input as a human-readable name of
    [NAMESPACE_MAP] and answers with the store bound under the binding
    found there, and when neither resolves it throws the unknown-namespace
    error, whose message contains every registered human-readable name.
    But for the name of a member of [Object.prototype], which is no
    registered name, the test [nameOrBinding in env] succeeds as well:
    [resolveKV] then returns that member, which is no store, and does not
    throw. *)
Theorem resolveKV_resolution_order (env : Env) (nameOrBinding : string) :
  (∀ kv, env !! nameOrBinding = Some kv →
         resolveKV env nameOrBinding = inr (Own kv)) ∧
  (∀ b kv, env !! nameOrBinding = None →
           nameOrBinding ∉ Object_prototype →
           record_get NAMESPACE_MAP nameOrBinding = Some b →
           env !! b = Some kv →
           resolveKV env nameOrBinding = inr (Own kv)) ∧
  (env !! nameOrBinding = None →
   nameOrBinding ∉ Object_prototype →
   (∀ b, record_get NAMESPACE_MAP nameOrBinding = Some b → env !! b = None) →
   resolveKV env nameOrBinding
     = inl (UnknownNamespace (unknown_namespace_message nameOrBinding)) ∧
   ∀ name, name ∈ Object_keys NAMESPACE_MAP →
           occurs_in name (unknown_namespace_message nameOrBinding)) ∧
  (env !! nameOrBinding = None →
   nameOrBinding ∈ Object_prototype →
   record_get NAMESPACE_MAP nameOrBinding = None ∧
   resolveKV env nameOrBinding = inr (Inherited nameOrBinding) ∧
   ∀ e, resolveKV env nameOrBinding ≠ inl e).
Proof.
  split; [|split; [|split]].
  - apply resolveKV_binding.
  - intros b kv. apply resolveKV_name.
  - intros Hname Hown Hnone.
    split; [by apply resolveKV_unknown | apply unknown_namespace_message_lists].
  - intros Hname Hin. split; [by apply NAMESPACE_MAP_names_own|].
    rewrite (resolveKV_inherited env nameOrBinding Hname Hin). by split.
Qed.

(** The four ways of [resolveKV] on an environment that binds [KV_LIU]
    only: a binding name, a registered name, an unknown name, and the
    name [constructor], which is neither bound nor registered and yet
    accepted. *)
Lemma resolveKV_resolution_order_witness :
  resolveKV {[ "KV_LIU" := 7 ]} "KV_LIU" = inr (Own 7) ∧
  resolveKV {[ "KV_LIU" := 7 ]} "liu" = inr (Own 7) ∧
  resolveKV {[ "KV_LIU" := 7 ]} "ico"
    = inl (UnknownNamespace (unknown_namespace_message "ico")) ∧
  occurs_in "parliament" (unknown_namespace_message "ico") ∧
  record_get NAMESPACE_MAP "constructor" = None ∧
  resolveKV {[ "KV_LIU" := 7 ]} "constructor" = inr (Inherited "constructor").
Proof.
  pose proof (resolveKV_resolution_order {[ "KV_LIU" := 7 ]} "KV_LIU") as (H1 & _).
  pose proof (resolveKV_resolution_order {[ "KV_LIU" := 7 ]} "liu") as (_ & H2 & _).
  pose proof (resolveKV_resolution_order {[ "KV_LIU" := 7 ]} "ico") as (_ & _ & H3 & _).
  pose proof (resolveKV_resolution_order {[ "KV_LIU" := 7 ]} "constructor")
    as (_ & _ & _ & H4).
  split; [apply H1; reflexivity|].
  split; [apply (H2 "KV_LIU"); [reflexivity | by_table | reflexivity..]|].
  destruct H3 as [H3 H3'];
    [reflexivity | by_table | intros b [= <-]; reflexivity |].
  split; [exact H3|].
  split; [apply H3'; by_table|].
  destruct H4 as (H4 & H4' & _); [reflexivity | by_table |].
  split; [exact H4 | exact H4'].
Defined.

(** ** Single-store handlers over any backend *)

Section WorkerFacts.
Context {W : Type} {B : KVBackend W}.

Lemma EMAIL_BODIES_own : "EMAIL_BODIES" ∉ Object_prototype.
Proof. by_table. Qed.

Lemma undefined_own : "undefined" ∉ Object_prototype.
Proof. by_table. Qed.

Lemma email_store_mapped (env : Env) (folder key metadata body_key body : string)
    (mapping : FolderMapping) (fkv : KVNamespace) (r : Run W) :
  record_get FOLDER_BINDING_MAP folder = Some mapping →
  env !! binding mapping = Some fkv →
  email_store env folder key metadata body_key body r =
    let m1 := folder_put_metadata folder body_key (date_now (world r)) in
    let '(res1, w1) := kv_put fkv key metadata m1 (world r) in
    let r1 := mkRun w1 (trace r ++ [EvPut fkv key metadata m1 res1]) in
    match res1 with
    | Fulfilled _ =>
        match env !! "EMAIL_BODIES" with
        | None => (Rejected (undefined_receiver "put"), r1)
        | Some bkv =>
            let m2 := body_put_metadata folder mapping (date_now w1) in
            let '(res2, w2) := kv_put bkv body_key body m2 w1 in
            (and_then res2 (email_store_success key body_key),
             mkRun w2 (trace r1 ++ [EvPut bkv body_key body m2 res2]))
        end
    | Rejected e => (Rejected e, r1)
    | Pending => (Pending, r1)
    end.
Proof.
  intros Hmap Hf. unfold email_store. rewrite (record_read_own _ _ _ Hmap).
  cbn [is_defined negb field property_key from_option id].
  rewrite (env_get_bound _ _ _ Hf).
  unfold bind, await_put; simpl.
  destruct (kv_put fkv key metadata _ (world r)) as [[u| |] w1]; [|done|done].
  destruct (env !! "EMAIL_BODIES") as [bkv|] eqn:Hb.
  - rewrite (env_get_bound _ _ _ Hb). simpl.
    change (body_metadata folder (Some (humanName mapping)))
      with (body_put_metadata folder mapping).
    destruct (kv_put bkv body_key body _ w1) as [[u'| |] w2]; done.
  - by rewrite (env_get_unbound _ _ Hb EMAIL_BODIES_own).
Qed.

(** The split write for a folder that is no entry of the table. *)
Lemma email_store_unmapped (env : Env) (folder key metadata body_key body : string)
    (r : Run W) :
  record_get FOLDER_BINDING_MAP folder = None →
  folder ∉ Object_prototype →
  email_store env folder key metadata body_key body r
    = (Fulfilled (not_mapped folder), r).
Proof.
  intros Hmap Hown. unfold email_store.
  by rewrite (record_read_undefined _ _ Hmap Hown).
Qed.

(** The split write for the name of a member of [Object.prototype]: the
    guard is passed and the folder store is looked up under the key
    [undefined]. *)
Lemma email_store_inherited (env : Env) (folder key metadata body_key body : string)
    (r : Run W) :
  record_get FOLDER_BINDING_MAP folder = None →
  folder ∈ Object_prototype →
  email_store env folder key metadata body_key body r
    = bind (await_put (env_get env "undefined") key metadata
              (folder_put_metadata folder body_key))
        (λ _, bind (await_put (env_get env "EMAIL_BODIES") body_key body
                      (body_metadata folder None))
                (λ _, ret (email_store_success key body_key))) r.
Proof.
  intros Hmap Hin. unfold email_store.
  by rewrite (record_read_inherited _ _ Hmap Hin).
Qed.

(** The three ways of [email_folder_stats]. *)
Lemma email_folder_stats_mapped (fuel : nat) (env : Env) (folder : string)
    (mapping : FolderMapping) (r : Run W) :
  record_get FOLDER_BINDING_MAP folder = Some mapping →
  email_folder_stats fuel env folder r
    = bind (listAllKeys fuel (env_get env (binding mapping)) (Some "email:"))
        (λ ks, ret (stats_result folder mapping (length ks))) r.
Proof.
  intros Hmap. unfold email_folder_stats. by rewrite (record_read_own _ _ _ Hmap).
Qed.

Lemma email_folder_stats_unmapped (fuel : nat) (env : Env) (folder : string)
    (r : Run W) :
  record_get FOLDER_BINDING_MAP folder = None →
  folder ∉ Object_prototype →
  email_folder_stats fuel env folder r = (Fulfilled (stats_not_mapped folder), r).
Proof.
  intros Hmap Hown. unfold email_folder_stats.
  by rewrite (record_read_undefined _ _ Hmap Hown).
Qed.

Lemma email_folder_stats_inherited (fuel : nat) (env : Env) (folder : string)
    (r : Run W) :
  record_get FOLDER_BINDING_MAP folder = None →
  folder ∈ Object_prototype →
  email_folder_stats fuel env folder r
    = bind (listAllKeys fuel (env_get env "undefined") (Some "email:"))
        (λ ks, ret (mkToolResult
                      (JsonText (JObj [ ("folder", JStr folder);
                                        ("emailCount", JNum (Z.of_nat (length ks))) ]))
                      false)) r.
Proof.
  intros Hmap Hin. unfold email_folder_stats.
  by rewrite (record_read_inherited _ _ Hmap Hin).
Qed.

(** C6.  [email_store] for a folder without entry in
    [FOLDER_BINDING_MAP].  Unless the folder is the name of a member of
    [Object.prototype], the split write returns the not-mapped error
    result and issues no store call: the world of the stores and the
    trace of calls are what they were.  For the name of such a member the
    [!mapping] guard does not fire: the call reads [env[undefined]] for
    the folder store and, no store being bound there, throws a
    [TypeError] instead of returning the not-mapped result, still without
    a store call; with a store bound there it goes on to write into
    it. *)
Theorem email_store_unmapped_writes_nothing
    (env : Env) (folder key metadata body_key body : string) (r : Run W) :
  record_get FOLDER_BINDING_MAP folder = None →
  let run := email_store env folder key metadata body_key body r in
  (folder ∉ Object_prototype →
   run.1 = Fulfilled (not_mapped folder) ∧
   isError (not_mapped folder) = true ∧
   world run.2 = world r ∧
   trace run.2 = trace r) ∧
  (folder ∈ Object_prototype →
   (env !! "undefined" = None →
    run = (Rejected (undefined_receiver "put"), r)) ∧
   (∀ kv res w', env !! "undefined" = Some kv →
      let m1 := folder_put_metadata folder body_key (date_now (world r)) in
      kv_put kv key metadata m1 (world r) = (res, w') →
      ∃ rest, trace run.2 = trace r ++ EvPut kv key metadata m1 res :: rest)).
Proof.
  intros Hmap run. split.
  - intros Hown. unfold run. by rewrite (email_store_unmapped _ _ _ _ _ _ _ Hmap Hown).
  - intros Hin. unfold run. rewrite (email_store_inherited _ _ _ _ _ _ _ Hmap Hin).
    split.
    + intros Hnone. by rewrite (env_get_unbound _ _ Hnone undefined_own).
    + intros kv res w' Hkv Hput. rewrite (env_get_bound _ _ _ Hkv).
      set (m1 := folder_put_metadata folder body_key (date_now (world r))) in *.
      unfold bind at 1. cbn [await_put]. fold m1. rewrite Hput.
      destruct res as [[]| |]; [|by exists []..].
      set (r1 := mkRun w' (trace r ++ [EvPut kv key metadata m1 (Fulfilled ())])).
      assert (Hext : ∃ rest, ∀ (k : unit → Async W ToolResult),
                 (∀ u r', (k u r').2 = r') →
                 trace (bind (await_put (env_get env "EMAIL_BODIES") body_key body
                                (body_metadata folder None)) k r1).2
                   = trace r1 ++ rest).
      { unfold bind. destruct (env_get env "EMAIL_BODIES") as [bkv| |]; cbn [await_put throw].
        - destruct (kv_put bkv body_key body _ (world r1)) as [res2 w2] eqn:Hput2.
          eexists. intros k Hk. destruct res2 as [[]| |]; [rewrite Hk|..]; reflexivity.
        - exists []. intros k _. by rewrite app_nil_r.
        - exists []. intros k _. by rewrite app_nil_r. }
      destruct Hext as [rest Hrest]. exists rest.
      rewrite Hrest by done. unfold r1. cbn [trace]. by rewrite <- app_assoc.
Qed.

(** C7 as the code has it.  When the store answers [null], [kv_key_get]
    returns a tool result that carries the error flag and the
    not-found text; a present value is returned without the flag; a
    failed read and an unknown namespace are thrown faults, not
    results. *)
Theorem kv_key_get_absent_key_flagged (env : Env) (namespace key : string)
    (r : Run W) :
  (∀ kv w', resolveKV env namespace = inr (Own kv) →
     kv_get kv key (world r) = (Fulfilled None, w') →
     kv_key_get env namespace key r
       = (Fulfilled (key_not_found key),
          mkRun w' (trace r ++ [EvGet kv key (Fulfilled None)]))
     ∧ isError (key_not_found key) = true) ∧
  (∀ kv w' v, resolveKV env namespace = inr (Own kv) →
     kv_get kv key (world r) = (Fulfilled (Some v), w') →
     kv_key_get env namespace key r
       = (Fulfilled (mkToolResult (PlainText v) false),
          mkRun w' (trace r ++ [EvGet kv key (Fulfilled (Some v))]))) ∧
  (∀ kv w' e, resolveKV env namespace = inr (Own kv) →
     kv_get kv key (world r) = (Rejected e, w') →
     kv_key_get env namespace key r
       = (Rejected e, mkRun w' (trace r ++ [EvGet kv key (Rejected e)]))) ∧
  (∀ e, resolveKV env namespace = inl e →
     kv_key_get env namespace key r = (Rejected e, r)).
Proof.
  unfold kv_key_get, bind, await_get.
  repeat split; intros; simplify_eq/=;
    repeat match goal with H : _ = _ |- _ => rewrite H; simpl end; done.
Qed.

(** *** The bulk read *)

Lemma elem_of_delete_lookup {A : Type} (l : list A) (i : nat) (x y : A) :
  l !! i = Some x → y ∈ l ↔ y = x ∨ y ∈ delete i l.
Proof.
  intros Hx. pose proof (take_drop_middle l i x Hx) as Hl.
  rewrite delete_take_drop. rewrite <- Hl at 1.
  rewrite !elem_of_app, elem_of_cons. tauto.
Qed.

Lemma resume_reads_pick (n : nat) (picks : list nat)
    (waiting : list (string * Outcome (option string))) :
  S n = length waiting →
  ∃ x, waiting !! (hd 0 picks `mod` length waiting) = Some x ∧
       n = length (delete (hd 0 picks `mod` length waiting) waiting).
Proof.
  intros Hlen.
  assert (Hi : hd 0 picks `mod` length waiting < length waiting).
  { apply Nat.mod_upper_bound. lia. }
  destruct (lookup_lt_is_Some_2 _ _ Hi) as [x Hx]. exists x. split; [done|].
  rewrite length_delete by eauto. lia.
Qed.

Lemma assign_lookup_other (results : Results) (key k : string) (v : option string) :
  k ≠ key → own_props (assign results key v) !! k = own_props results !! k.
Proof.
  intros Hne. unfold assign. destruct (_ && _); [by destruct v|].
  cbn [own_props]. by rewrite lookup_insert_ne.
Qed.

Lemma assign_ordinary_key (results : Results) (key : string) (v : option string) :
  key ≠ "__proto__" →
  assign results key v
    = mkResults (<[key := v]> (own_props results)) (has_prototype results).
Proof.
  intros Hne. unfold assign. by rewrite (proj2 (String.eqb_neq _ _) Hne).
Qed.

Lemma requests_pick (k key : string) (l : list string) (i : nat) :
  l !! i = Some key →
  requests k l = (if decide (key = k) then 1 else 0) + requests k (delete i l).
Proof.
  intros Hi. unfold requests.
  pose proof (delete_Permutation l i key Hi) as Hperm.
  apply (filter_Permutation (λ k', k' = k)) in Hperm.
  apply Permutation_length in Hperm. rewrite Hperm.
  rewrite filter_cons. by destruct (decide (key = k)).
Qed.

Lemma resume_reads_fulfilled (n : nat) (picks : list nat)
    (waiting : list (string * Outcome (option string))) (results : Results) :
  n = length waiting →
  Forall read_fulfilled waiting →
  ∃ results',
    resume_reads n picks waiting results = Fulfilled results' ∧
    (∀ k, k ≠ "__proto__" → k ∈ waiting.*1 →
       ∃ v, own_props results' !! k = Some v ∧ (k, Fulfilled v) ∈ waiting) ∧
    (∀ k, k ∉ waiting.*1 → own_props results' !! k = own_props results !! k).
Proof.
  revert picks waiting results.
  induction n as [|n IH]; intros picks waiting results Hlen Hall.
  - destruct waiting; [|done]. exists results. split; [done|].
    split; [|done]. intros k _ Hk. by apply elem_of_nil in Hk.
  - destruct (resume_reads_pick n picks waiting Hlen) as ([key o] & Hx & Hn).
    cbn [resume_reads]. rewrite Hx.
    rewrite Forall_forall in Hall.
    destruct (Hall (key, o)) as [v Hv]; [by eapply list_elem_of_lookup_2|].
    simpl in Hv. subst o.
    destruct (IH (tl picks) (delete (hd 0 picks `mod` length waiting) waiting)
                (assign results key v) Hn)
      as (results' & Hres & Hin & Hout).
    { apply Forall_delete. by apply Forall_forall. }
    exists results'. split; [done|]. split.
    + intros k Hproto Hk.
      destruct (decide (k ∈ (delete (hd 0 picks `mod` length waiting) waiting).*1))
        as [Hk'|Hk'].
      * destruct (Hin k Hproto Hk') as (v' & Hv' & Hmem). exists v'. split; [done|].
        by eapply list_elem_of_delete_inv.
      * exists v. apply list_elem_of_fmap in Hk as ([k0 o0] & -> & Hmem).
        apply (elem_of_delete_lookup _ _ _ _ Hx) in Hmem as [[= -> ->]|Hmem].
        -- split; [|by eapply list_elem_of_lookup_2].
           rewrite (Hout _ Hk'), (assign_ordinary_key _ _ _ Hproto).
           apply lookup_insert_eq.
        -- destruct Hk'. apply list_elem_of_fmap. by exists (k0, o0).
    + intros k Hk.
      assert (k ≠ key).
      { intros ->. apply Hk. apply list_elem_of_fmap. exists (key, Fulfilled v).
        split; [done|]. by eapply list_elem_of_lookup_2. }
      rewrite Hout.
      * by apply assign_lookup_other.
      * intros ([k0 o0] & -> & Hmem)%list_elem_of_fmap. apply Hk.
        apply list_elem_of_fmap. exists (k0, o0). split; [done|].
        by eapply list_elem_of_delete_inv.
Qed.

(** The key [__proto__] gets an entry only through a second assignment,
    made after an assignment of [null] has cut [results] off from
    [Object.prototype]. *)
Lemma resume_reads_proto (n : nat) (picks : list nat)
    (waiting : list (string * Outcome (option string)))
    (results results' : Results) :
  n = length waiting →
  resume_reads n picks waiting results = Fulfilled results' →
  own_props results !! "__proto__" = None →
  is_Some (own_props results' !! "__proto__") →
  (if has_prototype results then 2 else 1) ≤ requests "__proto__" waiting.*1 ∧
  (has_prototype results = true → ("__proto__", Fulfilled None) ∈ waiting).
Proof.
  revert picks waiting results.
  induction n as [|n IH]; intros picks waiting results Hlen Hrun Hnone Hsome.
  - simpl in Hrun. injection Hrun as <-. rewrite Hnone in Hsome. by destruct Hsome.
  - destruct (resume_reads_pick n picks waiting Hlen) as ([key o] & Hx & Hn).
    cbn [resume_reads] in Hrun. rewrite Hx in Hrun.
    destruct o as [v| |]; [|done|done].
    set (i := hd 0 picks `mod` length waiting) in *.
    assert (Hkey : waiting.*1 !! i = Some key) by by rewrite list_lookup_fmap, Hx.
    rewrite (requests_pick "__proto__" key _ i Hkey), <- list_fmap_delete.
    assert (Hlift : ("__proto__", Fulfilled None) ∈ delete i waiting →
                    ("__proto__", @Fulfilled (option string) None) ∈ waiting)
      by apply list_elem_of_delete_inv.
    destruct (decide (key = "__proto__")) as [->|Hne].
    + unfold assign in Hrun. rewrite String.eqb_refl in Hrun. cbn [andb] in Hrun.
      destruct (has_prototype results) eqn:Hproto.
      * destruct v as [s|].
        -- destruct (IH _ _ _ Hn Hrun Hnone Hsome) as [Hreq Hmem].
           rewrite Hproto in Hreq. split; [lia|]. intros _. by apply Hlift, Hmem.
        -- destruct (IH _ _ _ Hn Hrun Hnone Hsome) as [Hreq _].
           cbn [has_prototype] in Hreq. split; [lia|]. intros _.
           by eapply list_elem_of_lookup_2.
      * split; [lia|done].
    + rewrite (assign_ordinary_key _ _ _ Hne) in Hrun.
      destruct (IH _ _ _ Hn Hrun) as [Hreq Hmem]; [|done|].
      { cbn [own_props]. by rewrite lookup_insert_ne. }
      cbn [has_prototype] in Hreq, Hmem. split; [lia|]. intros Hp. by apply Hlift, Hmem.
Qed.

Lemma resume_reads_rejected (n : nat) (picks : list nat)
    (waiting : list (string * Outcome (option string))) (results : Results) :
  n = length waiting →
  Forall (λ x, has_settled x.2 = true) waiting →
  Exists read_rejected waiting →
  ∃ e k, resume_reads n picks waiting results = Rejected e ∧
         (k, Rejected e) ∈ waiting.
Proof.
  revert picks waiting results.
  induction n as [|n IH]; intros picks waiting results Hlen Hset Hrej.
  - destruct waiting; [|done]. by apply Exists_nil in Hrej.
  - destruct (resume_reads_pick n picks waiting Hlen) as ([key o] & Hx & Hn).
    cbn [resume_reads]. rewrite Hx.
    destruct o as [v|e|].
    + destruct (IH (tl picks) (delete (hd 0 picks `mod` length waiting) waiting)
                  (assign results key v) Hn)
        as (e & k & Hres & Hmem).
      * by apply Forall_delete.
      * apply Exists_exists in Hrej as (x & Hmem & e & Hx').
        apply Exists_exists. exists x. split; [|by exists e].
        apply (elem_of_delete_lookup _ _ _ _ Hx) in Hmem as [->|Hmem]; [|done].
        simpl in Hx'. discriminate.
      * exists e, k. split; [done|]. by eapply list_elem_of_delete_inv.
    + exists e, key. split; [done|]. by eapply list_elem_of_lookup_2.
    + rewrite Forall_forall in Hset.
      specialize (Hset (key, Pending) (list_elem_of_lookup_2 _ _ _ Hx)). done.
Qed.

Lemma filter_settled_fulfilled (reads : list (string * Outcome (option string))) :
  Forall read_fulfilled reads →
  filter (λ x, has_settled x.2 = true) reads = reads.
Proof.
  induction 1 as [|[k o] reads [v Hv] _ IH]; [done|].
  simpl in Hv. subst o. rewrite filter_cons_True by done. by rewrite IH.
Qed.

(** [Promise.all] over reads that are all fulfilled: every requested key
    other than [__proto__] has an entry, holding what a read of that key
    returned; no key that was not requested has one; and [__proto__] has
    one only if it was requested at least twice and a read of it
    returned [null]. *)
Lemma promise_all_reads_fulfilled (picks : list nat)
    (reads : list (string * Outcome (option string))) :
  Forall read_fulfilled reads →
  ∃ results,
    promise_all_reads picks reads empty_results = Fulfilled results ∧
    (∀ k, k ≠ "__proto__" → k ∈ reads.*1 →
       ∃ v, own_props results !! k = Some v ∧ (k, Fulfilled v) ∈ reads) ∧
    (∀ k, k ∉ reads.*1 → own_props results !! k = None) ∧
    (is_Some (own_props results !! "__proto__") →
     2 ≤ requests "__proto__" reads.*1 ∧ ("__proto__", Fulfilled None) ∈ reads).
Proof.
  intros Hall. unfold promise_all_reads.
  rewrite (filter_settled_fulfilled reads Hall).
  destruct (resume_reads_fulfilled (length reads) picks reads empty_results
              eq_refl Hall) as (results & Hrun & Hin & Hout).
  exists results. rewrite Hrun, bool_decide_eq_true_2 by done.
  split; [done|]. split; [done|]. split.
  - intros k Hk. by rewrite (Hout k Hk).
  - intros Hsome.
    destruct (resume_reads_proto _ _ _ _ _ eq_refl Hrun eq_refl Hsome) as [Hreq Hmem].
    split; [exact Hreq | by apply Hmem].
Qed.

Lemma promise_all_reads_rejected (picks : list nat)
    (reads : list (string * Outcome (option string))) :
  Exists read_rejected reads →
  ∃ e k, promise_all_reads picks reads empty_results = Rejected e
         ∧ (k, Rejected e) ∈ reads.
Proof.
  intros Hrej. unfold promise_all_reads.
  set (settled := filter (λ x, has_settled x.2 = true) reads).
  destruct (resume_reads_rejected (length settled) picks settled empty_results eq_refl)
    as (e & k & -> & Hmem).
  - apply Forall_forall. intros x Hx. by apply list_elem_of_filter in Hx as [? _].
  - apply Exists_exists in Hrej as (x & Hx & e & He). apply Exists_exists.
    exists x. split; [|by exists e]. apply list_elem_of_filter. by rewrite He.
  - exists e, k. split; [done|]. by apply list_elem_of_filter in Hmem as [_ ?].
Qed.

Lemma spawn_reads_keys (kv : Slot KVNamespace) (ks : list string) (r : Run W) :
  (spawn_reads kv ks r).1.*1 = ks.
Proof.
  revert r. induction ks as [|key ks IH]; intros r; [done|].
  cbn [spawn_reads]. destruct (await_get kv key r) as [res r1].
  specialize (IH r1). destruct (spawn_reads kv ks r1) as [rest r2].
  cbn [fst] in *. rewrite fmap_cons. cbn [fst]. by f_equal.
Qed.

Lemma spawn_reads_trace (kv : KVNamespace) (ks : list string) (r : Run W) :
  trace (spawn_reads (Own kv) ks r).2
    = trace r ++ map (read_event kv) (spawn_reads (Own kv) ks r).1.
Proof.
  revert r. induction ks as [|key ks IH]; intros r.
  - simpl. by rewrite app_nil_r.
  - cbn [spawn_reads await_get].
    destruct (kv_get kv key (world r)) as [res w'].
    specialize (IH (mkRun w' (trace r ++ [EvGet kv key res]))).
    destruct (spawn_reads (Own kv) ks _) as [rest r2].
    cbn [fst snd trace] in *. rewrite IH. by rewrite <- app_assoc.
Qed.

Lemma kv_keys_bulk_get_tool_run (picks : list nat) (env : Env)
    (namespace : string) (ks : list string) (kv : KVNamespace) (r : Run W) :
  length ks ≤ 100 →
  resolveKV env namespace = inr (Own kv) →
  (kv_keys_bulk_get_tool picks env namespace ks r).1
    = and_then_map (promise_all_reads picks (spawn_reads (Own kv) ks r).1
                      empty_results).
Proof.
  intros Hmax Hres. unfold kv_keys_bulk_get_tool, kv_keys_bulk_get.
  replace (100 <? length ks) with false by (symmetry; apply Nat.ltb_ge; lia).
  unfold bind, sync, ret. rewrite Hres. simpl.
  destruct (spawn_reads (Own kv) ks r) as [rs r']. simpl.
  by destruct (promise_all_reads picks rs empty_results).
Qed.

Lemma kv_keys_bulk_get_tool_state (picks : list nat) (env : Env)
    (namespace : string) (ks : list string) (kv : KVNamespace) (r : Run W) :
  length ks ≤ 100 →
  resolveKV env namespace = inr (Own kv) →
  (kv_keys_bulk_get_tool picks env namespace ks r).2
    = (spawn_reads (Own kv) ks r).2.
Proof.
  intros Hmax Hres. unfold kv_keys_bulk_get_tool, kv_keys_bulk_get.
  replace (100 <? length ks) with false by (symmetry; apply Nat.ltb_ge; lia).
  unfold bind, sync, ret. rewrite Hres. simpl.
  destruct (spawn_reads (Own kv) ks r) as [rs r']. simpl.
  by destruct (promise_all_reads picks rs empty_results).
Qed.

(** C2 as the code has it.  For at most 100 keys the bulk get issues one
    read per requested key, in the order of the keys, and no other store
    call.  When every read is fulfilled, the result has an entry for every
    requested key other than [__proto__], holding what a read of that key
    returned ([null] for an absent key), whatever the order in which the
    reads complete.  When a read is rejected, the whole call is rejected
    with the fault of a rejected read: there is no per-key error entry and
    the values of the other keys are not returned. *)
Theorem kv_keys_bulk_get_all_or_nothing (picks : list nat) (env : Env)
    (namespace : string) (ks : list string) (kv : KVNamespace) (r : Run W) :
  length ks ≤ 100 →
  resolveKV env namespace = inr (Own kv) →
  let reads := (spawn_reads (Own kv) ks r).1 in
  let run := kv_keys_bulk_get_tool picks env namespace ks r in
  reads.*1 = ks ∧
  trace run.2 = trace r ++ map (read_event kv) reads ∧
  (Forall read_fulfilled reads →
   ∃ results : gmap string (option string),
     run.1 = Fulfilled (mkToolResult (JsonText (JDict (json_of_value <$> results)))
                                     false) ∧
     ∀ k, k ∈ ks → k ≠ "__proto__" →
          ∃ v, results !! k = Some v ∧ (k, Fulfilled v) ∈ reads) ∧
  (Exists read_rejected reads →
   ∃ e k, run.1 = Rejected e ∧ (k, Rejected e) ∈ reads).
Proof.
  intros Hmax Hres reads run.
  assert (Hkeys : reads.*1 = ks) by apply spawn_reads_keys.
  assert (Hrun : run.1 = and_then_map (promise_all_reads picks reads empty_results))
    by by apply kv_keys_bulk_get_tool_run.
  split; [done|]. split; [|split].
  - unfold run. rewrite (kv_keys_bulk_get_tool_state picks env namespace ks kv r Hmax Hres).
    apply spawn_reads_trace.
  - intros Hall.
    destruct (promise_all_reads_fulfilled picks reads Hall)
      as (results & Hp & Hin & _).
    exists (own_props results). rewrite Hrun, Hp. split; [done|].
    intros k Hk Hproto. apply Hin; [done|]. by rewrite Hkeys.
  - intros Hrej.
    destruct (promise_all_reads_rejected picks reads Hrej) as (e & k & Hp & Hmem).
    exists e, k. by rewrite Hrun, Hp.
Qed.

(** *** The health scan never throws *)

Lemma probe_namespace_not_rejected (env : Env) (name bindingKey : string)
    (stats : gmap string Z) (r : Run W) (e : Fault) :
  (probe_namespace env name bindingKey stats r).1 ≠ Rejected e.
Proof.
  unfold probe_namespace, try_catch, bind, ret.
  destruct (await_list _ _ r) as [[page| |] r']; simpl; done.
Qed.

Lemma scan_namespaces_not_rejected (env : Env) (entries : list (string * string))
    (stats : gmap string Z) (r : Run W) (e : Fault) :
  (scan_namespaces env entries stats r).1 ≠ Rejected e.
Proof.
  revert stats r. induction entries as [|[name b] rest IH]; intros stats r; [done|].
  cbn [scan_namespaces]. destruct (_ || _); [apply IH|].
  unfold bind.
  pose proof (probe_namespace_not_rejected env name b stats r) as Hprobe.
  destruct (probe_namespace env name b stats r) as [[stats'| |] r']; simpl in *.
  - apply IH.
  - by destruct (Hprobe e0).
  - done.
Qed.

Lemma pipeline_status_not_rejected (env : Env) (r : Run W) (e : Fault) :
  (pipeline_status env r).1 ≠ Rejected e.
Proof.
  unfold pipeline_status, bind, ret.
  pose proof (scan_namespaces_not_rejected env (Object_entries NAMESPACE_MAP) ∅ r e).
  destruct (scan_namespaces env _ ∅ r) as [[stats| |] r']; simpl in *;
    [discriminate | | discriminate].
  intros [= ->]. by apply H.
Qed.

(** *** listAllKeys *)

Lemma page_calls_app (t1 t2 : list Event) :
  page_calls (t1 ++ t2) = page_calls t1 + page_calls t2.
Proof. unfold page_calls. by rewrite filter_app, length_app. Qed.

Lemma continuing_pages_calls (kv : KVNamespace) (pfx cur : option string)
    (evs : list Event) :
  continuing_pages kv pfx cur evs → page_calls evs = length evs.
Proof.
  revert cur. induction evs as [|[kv' o [res| |]| |] evs IH]; intros cur; simpl; try done.
  intros (_ & _ & _ & H). unfold page_calls in *. rewrite filter_cons_True by done.
  simpl. f_equal. by eapply IH.
Qed.

Lemma listAllKeys_loop_step (fuel : nat) (kv : KVNamespace)
    (pfx cur : option string) (all : list string) (r : Run W) :
  listAllKeys_loop (S fuel) (Own kv) pfx cur all r =
    let '(res, w') := kv_list kv (list_request pfx cur) (world r) in
    let r' := mkRun w' (trace r ++ [EvList kv (list_request pfx cur) res]) in
    match res with
    | Fulfilled page =>
        if truthy_opt (next_cursor page)
        then listAllKeys_loop fuel (Own kv) pfx (next_cursor page) (all ++ keys page) r'
        else (Fulfilled (all ++ keys page), r')
    | Rejected e => (Rejected e, r')
    | Pending => (Pending, r')
    end.
Proof.
  simpl. unfold bind, await_list, list_request, next_cursor.
  destruct (kv_list kv _ (world r)) as [[page| |] w']; [|done|done].
  by destruct (truthy_opt _).
Qed.

(** The loop, whatever the store does: a run of continuing pages, each
    sent with the cursor of the one before, then the call that stopped
    it. *)
Lemma listAllKeys_loop_shape (fuel : nat) (kv : KVNamespace)
    (pfx cur : option string) (all : list string) (r : Run W) :
  let run := listAllKeys_loop fuel (Own kv) pfx cur all r in
  ∃ evs last,
    trace run.2 = trace r ++ evs ++ last ∧
    continuing_pages kv pfx cur evs ∧
    stopped_by kv pfx fuel all evs last (cursor_after cur evs) run.1.
Proof.
  revert cur all r. induction fuel as [|fuel IH]; intros cur all r.
  - exists [], []. simpl. rewrite app_nil_r. split; [done|]. split; [done|]. by left.
  - cbv zeta. rewrite listAllKeys_loop_step.
    destruct (kv_list kv (list_request pfx cur) (world r)) as [[page| |] w'].
    + destruct (truthy_opt (next_cursor page)) eqn:Hgo; cbv beta iota zeta.
      * destruct (IH (next_cursor page) (all ++ keys page)
                    (mkRun w' (trace r ++ [EvList kv (list_request pfx cur) (Fulfilled page)])))
          as (evs & last & Htr & Hcont & Hstop).
        exists (EvList kv (list_request pfx cur) (Fulfilled page) :: evs), last.
        split; [rewrite Htr; simpl; by rewrite <- app_assoc|].
        split; [done|]. simpl.
        destruct (listAllKeys_loop fuel _ _ _ _ _).1 as [ks| |]; simpl in *.
        -- destruct Hstop as (res & -> & Hend & ->). exists res.
           split; [done|]. split; [done|]. by rewrite <- !app_assoc.
        -- done.
        -- destruct Hstop as [[-> Hlen] | ->]; [left|right]; [|done].
           split; [done|]. by rewrite Hlen.
      * exists [], [EvList kv (list_request pfx cur) (Fulfilled page)].
        simpl. split; [done|]. split; [done|]. exists page. by rewrite Hgo.
    + exists [], [EvList kv (list_request pfx cur) (Rejected e)]. by simpl.
    + exists [], [EvList kv (list_request pfx cur) Pending]. simpl.
      split; [done|]. split; [done|]. by right.
Qed.

(** Against a store that never reports completion the loop settles for no
    amount of fuel, and has issued as many page calls as it was given
    iterations. *)
Lemma listAllKeys_loop_never_completes (kv : KVNamespace) (pfx : option string) :
  never_completes kv →
  ∀ (fuel : nat) (cur : option string) (all : list string) (r : Run W),
    let run := listAllKeys_loop fuel (Own kv) pfx cur all r in
    run.1 = Pending ∧ page_calls (trace run.2) = page_calls (trace r) + fuel.
Proof.
  intros Hnever. induction fuel as [|fuel IH]; intros cur all r.
  - simpl. split; [done|lia].
  - cbv zeta. rewrite listAllKeys_loop_step.
    destruct (Hnever (list_request pfx cur) (world r)) as (page & w' & -> & Hgo).
    rewrite Hgo. cbv beta iota zeta.
    destruct (IH (next_cursor page) (all ++ keys page)
                (mkRun w' (trace r ++ [EvList kv (list_request pfx cur) (Fulfilled page)])))
      as [Hout Hcalls].
    split; [done|]. rewrite Hcalls. simpl. rewrite page_calls_app.
    unfold page_calls at 2. simpl. lia.
Qed.

(** More fuel does not change a loop that has settled. *)
Lemma listAllKeys_loop_fuel_mono (fuel fuel' : nat) (kv : KVNamespace)
    (pfx cur : option string) (all : list string) (r : Run W) :
  fuel ≤ fuel' →
  (listAllKeys_loop fuel (Own kv) pfx cur all r).1 ≠ Pending →
  listAllKeys_loop fuel' (Own kv) pfx cur all r
    = listAllKeys_loop fuel (Own kv) pfx cur all r.
Proof.
  revert fuel' cur all r. induction fuel as [|fuel IH]; intros fuel' cur all r Hle Hset.
  - by destruct Hset.
  - destruct fuel' as [|fuel']; [lia|].
    rewrite !listAllKeys_loop_step in *.
    destruct (kv_list kv (list_request pfx cur) (world r)) as [[page| |] w']; try done.
    cbv beta iota zeta in *.
    destruct (truthy_opt (next_cursor page)); [|done].
    apply IH; [lia|done].
Qed.

(** C3 as the code has it.  Whatever the store does, [listAllKeys] sends
    page calls, each with the cursor of the page before, and stops only at
    a page that reports completion or has no truthy cursor (it returns the
    keys gathered so far), or at a page call that is rejected (it throws
    that rejection) or never answers.  There is no cap on the number of
    pages: against a store that never reports completion the loop has not
    settled after any number of iterations, each of which issued one more
    page call. *)
Theorem listAllKeys_stops_only_at_store_signal :
  (∀ (fuel : nat) (kv : KVNamespace) (pfx : option string) (r : Run W),
     let run := listAllKeys fuel (Own kv) pfx r in
     ∃ evs last,
       trace run.2 = trace r ++ evs ++ last ∧
       continuing_pages kv pfx None evs ∧
       stopped_by kv pfx fuel [] evs last (cursor_after None evs) run.1) ∧
  (∀ (kv : KVNamespace) (pfx : option string),
     never_completes kv →
     ∀ (fuel : nat) (r : Run W),
       let run := listAllKeys fuel (Own kv) pfx r in
       run.1 = Pending ∧ page_calls (trace run.2) = page_calls (trace r) + fuel).
Proof.
  split.
  - intros fuel kv pfx r. apply listAllKeys_loop_shape.
  - intros kv pfx Hnever fuel r. by apply listAllKeys_loop_never_completes.
Qed.

End WorkerFacts.

(** ** Listing against a store that never completes *)

Lemma endless_never_completes (kv : KVNamespace) :
  never_completes (B := Endless.backend) kv.
Proof. intros o w. by exists (mkListResult [] false (Some "more")), w. Qed.

(** Against C3 as stated: on the store that never reports completion the
    call has not settled after any number of iterations, so it never
    fails, and no bound holds for the page calls it issues. *)
Lemma listAllKeys_endless_has_no_cap :
  never_completes (B := Endless.backend) 1 ∧
  (∀ fuel : nat,
     (listAllKeys (B := Endless.backend) fuel (Own 1) None (mkRun () [])).1
       = Pending) ∧
  ¬ ∃ bound : nat, ∀ fuel : nat,
      page_calls (trace (listAllKeys (B := Endless.backend) fuel (Own 1) None
                           (mkRun () [])).2) ≤ bound.
Proof.
  pose proof (listAllKeys_loop_never_completes (B := Endless.backend) 1 None
                (endless_never_completes 1)) as Hloop.
  split; [exact (endless_never_completes 1)|]. split.
  - intros fuel. apply (Hloop fuel None [] (mkRun () [])).
  - intros [bound Hbound]. specialize (Hbound (S bound)).
    assert (Hcalls : page_calls (trace (listAllKeys (B := Endless.backend) (S bound)
                                          (Own 1) None (mkRun () [])).2) = S bound)
      by exact (proj2 (Hloop (S bound) None [] (mkRun () []))).
    rewrite Hcalls in Hbound. lia.
Qed.

Lemma listAllKeys_stops_only_at_store_signal_witness :
  never_completes (B := Endless.backend) 1 ∧
  (listAllKeys (B := Endless.backend) 64 (Own 1) None (mkRun () [])).1 = Pending ∧
  page_calls (trace (listAllKeys (B := Endless.backend) 64 (Own 1) None
                       (mkRun () [])).2) = 64.
Proof.
  split; [exact (endless_never_completes 1)|].
  destruct (listAllKeys_stops_only_at_store_signal (B := Endless.backend)) as [_ H].
  exact (H 1 None (endless_never_completes 1) 64 (mkRun () [])).
Defined.

(** ** The reference backend *)

Import MemKV.

Section MemFacts.

Implicit Types (w : World) (kv : KVNamespace).

Lemma store_of_put_same w kv key val meta :
  store_of (mkWorld (<[kv := <[key := mkEntry val meta]> (store_of w kv)]> (stores w))
                    (page_max w) (failing w) (clock w)) kv !! key
  = Some (mkEntry val meta).
Proof.
  unfold store_of at 1; simpl.
  by rewrite lookup_insert_eq; simpl; rewrite lookup_insert_eq.
Qed.

Lemma store_of_put_other w kv key val meta kv' key' :
  (kv, key) ≠ (kv', key') →
  store_of (mkWorld (<[kv := <[key := mkEntry val meta]> (store_of w kv)]> (stores w))
                    (page_max w) (failing w) (clock w)) kv' !! key'
  = store_of w kv' !! key'.
Proof.
  intros Hne. unfold store_of at 1; simpl.
  destruct (decide (kv = kv')) as [<-|Hkv].
  - rewrite lookup_insert_eq; simpl. rewrite lookup_insert_ne; [done|congruence].
  - by rewrite lookup_insert_ne.
Qed.

(** *** Cursors *)

Lemma offset_of_cursor_of (n : nat) : offset_of (cursor_of n) = Some n.
Proof.
  unfold offset_of, cursor_of. rewrite NilEmpty.usu. simpl.
  by rewrite DecimalNat.Unsigned.of_to.
Qed.

Lemma cursor_of_truthy (n : nat) : truthy (cursor_of n) = true.
Proof.
  unfold truthy, cursor_of. apply negb_true_iff, String.eqb_neq. intros Hempty.
  assert (Hnil : Nat.to_uint n = Decimal.Nil).
  { destruct (Nat.to_uint n); try done; simpl in Hempty; discriminate. }
  pose proof (DecimalNat.Unsigned.of_to n) as Hn. rewrite Hnil in Hn.
  simpl in Hn. subst n. discriminate Hnil.
Qed.

(** *** Counting pages *)

Lemma ceil_div_last (n p : nat) :
  0 < p → n ≤ p → Nat.max 1 (ceil_div n p) = 1.
Proof.
  intros Hp Hn. unfold ceil_div.
  assert ((n + p - 1) / p < 2); [|lia].
  apply Nat.Div0.div_lt_upper_bound; lia.
Qed.

Lemma ceil_div_more (n p : nat) :
  0 < p → p < n → Nat.max 1 (ceil_div n p) = S (Nat.max 1 (ceil_div (n - p) p)).
Proof.
  intros Hp Hn. unfold ceil_div.
  replace (n + p - 1) with ((n - p + p - 1) + 1 * p) by lia.
  rewrite Nat.div_add by lia.
  assert (0 < (n - p + p - 1) / p); [|lia].
  apply Nat.div_str_pos. lia.
Qed.

(** *** listAllKeys on the reference backend *)

Lemma kv_list_mem w kv (o : ListOptions) (off : nat) :
  failing w (OpList kv) = false →
  start_offset (opt_cursor o) = Some off →
  kv_list kv o w = (Fulfilled (page_at w kv o off), w).
Proof.
  intros Hok Hoff. change (kv_list kv o w) with (list_page kv o w).
  unfold list_page. by rewrite Hok, Hoff.
Qed.

Lemma page_at_list_request w kv (pfx cur : option string) (off : nat) :
  page_at w kv (list_request pfx cur) off =
    let P := Nat.min 1000 (page_max w) in
    let ks := matching pfx (store_of w kv) in
    mkListResult (take P (drop off ks)) (length ks <=? off + P)
      (if length ks <=? off + P then None else Some (cursor_of (off + P))).
Proof. reflexivity. Qed.

Lemma listAllKeys_loop_mem (fuel : nat) w kv (pfx cur : option string)
    (off : nat) (all : list string) (tr : list Event) :
  failing w (OpList kv) = false →
  0 < Nat.min 1000 (page_max w) →
  start_offset cur = Some off →
  Nat.max 1 (ceil_div (length (matching pfx (store_of w kv)) - off)
                      (Nat.min 1000 (page_max w))) ≤ fuel →
  let run := listAllKeys_loop fuel (Own kv) pfx cur all (mkRun w tr) in
  run.1 = Fulfilled (all ++ drop off (matching pfx (store_of w kv))) ∧
  world run.2 = w ∧
  page_calls (trace run.2)
    = page_calls tr
      + Nat.max 1 (ceil_div (length (matching pfx (store_of w kv)) - off)
                            (Nat.min 1000 (page_max w))).
Proof.
  intros Hok. set (P := Nat.min 1000 (page_max w)).
  set (ks := matching pfx (store_of w kv)). intros HP.
  revert cur off all tr.
  induction fuel as [|fuel IH]; intros cur off all tr Hoff Hfuel; [lia|].
  cbv zeta. rewrite listAllKeys_loop_step. cbn [world trace].
  rewrite (kv_list_mem w kv (list_request pfx cur) off Hok Hoff).
  rewrite page_at_list_request. cbv beta iota zeta. fold P ks.
  unfold next_cursor. cbn [list_complete cursor keys].
  destruct (length ks <=? off + P) eqn:Hlast; cbn [truthy_opt fst snd world trace].
  - apply Nat.leb_le in Hlast.
    rewrite (ceil_div_last (length ks - off) P) by lia.
    rewrite take_ge by (rewrite length_drop; lia).
    split; [done|]. split; [done|].
    rewrite page_calls_app. unfold page_calls at 2. simpl. lia.
  - apply Nat.leb_gt in Hlast. rewrite cursor_of_truthy.
    rewrite (ceil_div_more (length ks - off) P) in Hfuel |- * by lia.
    destruct (IH (Some (cursor_of (off + P))) (off + P)
                (all ++ take P (drop off ks))
                (tr ++ [EvList kv (list_request pfx cur)
                          (Fulfilled (mkListResult (take P (drop off ks)) false
                                        (Some (cursor_of (off + P)))))]))
      as (Hout & Hw & Hcalls).
    { apply offset_of_cursor_of. }
    { replace (length ks - (off + P)) with (length ks - off - P) by lia. lia. }
    rewrite Hout, Hw, Hcalls. split; [|split; [done|]].
    + rewrite <- app_assoc. do 2 f_equal.
      rewrite <- (take_drop P (drop off ks)) at 2. by rewrite drop_drop.
    + rewrite page_calls_app. unfold page_calls at 2. simpl.
      replace (length ks - (off + P)) with (length ks - off - P) by lia. lia.
Qed.

(** *** The keys of a store *)

Lemma elem_of_key_names (st : gmap string Entry) (k : string) :
  k ∈ key_names st ↔ is_Some (st !! k).
Proof.
  unfold key_names. rewrite list_elem_of_fmap. split.
  - intros ([k' e] & -> & H). apply elem_of_map_to_list in H. by exists e.
  - intros [e H]. exists (k, e). split; [done|]. by apply elem_of_map_to_list.
Qed.

Lemma key_names_NoDup (st : gmap string Entry) : NoDup (key_names st).
Proof. apply NoDup_fst_map_to_list. Qed.

Lemma elem_of_matching (pfx : option string) (st : gmap string Entry) (k : string) :
  k ∈ matching pfx st ↔ is_Some (st !! k) ∧ has_prefix pfx k = true.
Proof.
  unfold matching. rewrite list_elem_of_filter, elem_of_key_names. tauto.
Qed.

Lemma matching_NoDup (pfx : option string) (st : gmap string Entry) :
  NoDup (matching pfx st).
Proof. apply NoDup_filter, key_names_NoDup. Qed.

Lemma matching_None (st : gmap string Entry) : matching None st = key_names st.
Proof.
  unfold matching. induction (key_names st) as [|k ks IH]; [done|].
  rewrite filter_cons_True by done. by rewrite IH.
Qed.

(** [listAllKeys] on a healthy store: all matching keys, the store left
    as it was, and the number of page calls. *)
Lemma listAllKeys_mem (fuel : nat) w kv (pfx : option string) (tr : list Event) :
  failing w (OpList kv) = false →
  0 < Nat.min 1000 (page_max w) →
  Nat.max 1 (ceil_div (length (matching pfx (store_of w kv)))
                      (Nat.min 1000 (page_max w))) ≤ fuel →
  let run := listAllKeys fuel (Own kv) pfx (mkRun w tr) in
  run.1 = Fulfilled (matching pfx (store_of w kv)) ∧
  world run.2 = w ∧
  page_calls (trace run.2)
    = page_calls tr
      + Nat.max 1 (ceil_div (length (matching pfx (store_of w kv)))
                            (Nat.min 1000 (page_max w))).
Proof.
  intros Hok HP Hfuel.
  pose proof (listAllKeys_loop_mem fuel w kv pfx None 0 [] tr Hok HP eq_refl) as H.
  rewrite Nat.sub_0_r in H. apply H, Hfuel.
Qed.

(** *** The health probe *)

Lemma length_key_names (st : gmap string Entry) : length (key_names st) = size st.
Proof. unfold key_names. by rewrite length_fmap, length_map_to_list. Qed.

Lemma probe_namespace_mem (env : Env) w (name bindingKey : string)
    (stats : gmap string Z) (tr : list Event) :
  0 < page_max w →
  ∃ c tr',
    probe_namespace env name bindingKey stats (mkRun w tr)
      = (Fulfilled (<[name := c]> stats), mkRun w tr') ∧
    health_count env w bindingKey c.
Proof.
  intros Hpage. unfold probe_namespace, try_catch, bind, health_count.
  destruct (env !! bindingKey) as [kv|] eqn:Hkv.
  - rewrite (env_get_bound _ _ _ Hkv). cbn [await_list].
    change (kv_list kv ?o (world (mkRun w tr))) with (list_page kv o w).
    unfold list_page. destruct (failing w (OpList kv)) eqn:Hfail.
    + eexists _, _. split; [reflexivity|].
      split; [|done]. intros kv' [= <-] ?. congruence.
    + cbn [start_offset opt_cursor]. cbv beta iota zeta.
      assert (Hsize : page_size w (mkListOptions None None (Some 1)) = 1).
      { unfold page_size. cbn [opt_limit]. change (default (page_max w) (Some 1)) with 1.
        lia. }
      unfold page_at. rewrite Hsize. cbn [opt_prefix].
      rewrite matching_None, length_key_names.
      cbn [list_complete keys ret]. rewrite drop_0.
      destruct (size (store_of w kv) <=? 0 + 1) eqn:Hsmall; cbn [negb].
      * apply Nat.leb_le in Hsmall. eexists _, _. split; [reflexivity|].
        rewrite length_take, length_key_names.
        split; [|split; [congruence|done]].
        intros kv' [= <-] _. repeat split; intros; f_equal; lia.
      * apply Nat.leb_gt in Hsmall. eexists _, _.
        rewrite insert_insert_eq. split; [reflexivity|].
        split; [|split; [congruence|done]].
        intros kv' [= <-] _. repeat split; intros; (lia || done).
  - unfold env_get, property. rewrite Hkv.
    destruct (inherited bindingKey); cbn [await_list throw];
      (eexists _, _; split; [reflexivity|]; by repeat split).
Qed.

Lemma scan_namespaces_mem (env : Env) w :
  0 < page_max w →
  ∀ (entries : list (string * string)) (stats : gmap string Z) (tr : list Event),
    ∃ stats' tr',
      scan_namespaces env entries stats (mkRun w tr)
        = (Fulfilled stats', mkRun w tr') ∧
      (∀ name, name ∉ entries.*1 → stats' !! name = stats !! name) ∧
      (NoDup entries.*1 →
       ∀ name bindingKey, (name, bindingKey) ∈ entries → skipped name = false →
         ∃ c, stats' !! name = Some c ∧ health_count env w bindingKey c).
Proof.
  intros Hpage. induction entries as [|[n0 b0] rest IH]; intros stats tr.
  - exists stats, tr. split; [done|]. split; [done|].
    intros _ name b H. by apply elem_of_nil in H.
  - cbn [scan_namespaces]. fold (skipped n0).
    destruct (skipped n0) eqn:Hskip.
    + destruct (IH stats tr) as (stats' & tr' & Hrun & Hframe & Hcounts).
      exists stats', tr'. split; [done|]. split.
      * intros name Hname. apply Hframe. rewrite fmap_cons in Hname.
        by apply not_elem_of_cons in Hname as [_ Hname].
      * rewrite fmap_cons. intros [_ Hnd]%NoDup_cons name b Hin Hname.
        apply elem_of_cons in Hin as [[= -> ->]|Hin]; [congruence|].
        by apply Hcounts.
    + destruct (probe_namespace_mem env w n0 b0 stats tr Hpage)
        as (c0 & tr0 & Hprobe & Hc0).
      unfold bind. rewrite Hprobe.
      destruct (IH (<[n0 := c0]> stats) tr0) as (stats' & tr' & Hrun & Hframe & Hcounts).
      exists stats', tr'. split; [done|]. split.
      * intros name Hname. rewrite fmap_cons in Hname. cbn [fst] in Hname.
        apply not_elem_of_cons in Hname as [Hne Hname].
        rewrite (Hframe _ Hname). by rewrite lookup_insert_ne.
      * rewrite fmap_cons. cbn [fst]. intros [Hn0 Hnd]%NoDup_cons name b Hin Hname.
        apply elem_of_cons in Hin as [[= -> ->]|Hin]; [|by apply Hcounts].
        exists c0. split; [|done]. rewrite (Hframe _ Hn0). apply lookup_insert_eq.
Qed.

End MemFacts.

(** ** Full listing *)

(** Against C8 as stated: an empty store (N = 0) costs one page call, not
    [ceil (0 / P) = 0]. *)
Lemma listAllKeys_empty_store_one_call :
  let w := sample_world healthy in
  let run := listAllKeys 5 (Own 1) None (mkRun w []) in
  length (key_names (store_of w 1)) = 0 ∧
  run.1 = Fulfilled [] ∧
  page_calls (trace run.2) = 1 ∧
  ceil_div 0 (Nat.min 1000 (page_max w)) = 0.
Proof. by vm_compute. Qed.

(** C8 as the code has it.  On a healthy store that serves the requests
    of [listAllKeys] in pages of [P] keys ([P] the smaller of the 1000
    asked for and the store's cap, [P > 0]) and holds [N] keys matching
    the prefix, [listAllKeys] returns exactly those [N] keys, none twice
    and none missing, each page call carrying the cursor of the page
    before, after [ceil (N / P)] page calls, and after one page call when
    [N = 0]. *)
Theorem listAllKeys_returns_all_keys (fuel : nat) (w : World) (kv : KVNamespace)
    (pfx : option string) (tr : list Event) :
  failing w (OpList kv) = false →
  let P := Nat.min 1000 (page_max w) in
  let N := length (matching pfx (store_of w kv)) in
  0 < P →
  Nat.max 1 (ceil_div N P) ≤ fuel →
  let run := listAllKeys fuel (Own kv) pfx (mkRun w tr) in
  ∃ ks : list string,
    run.1 = Fulfilled ks ∧
    length ks = N ∧
    NoDup ks ∧
    (∀ k, k ∈ ks ↔ is_Some (store_of w kv !! k) ∧ has_prefix pfx k = true) ∧
    page_calls (trace run.2) = page_calls tr + Nat.max 1 (ceil_div N P) ∧
    ∃ evs res,
      trace run.2
        = tr ++ evs ++ [EvList kv (list_request pfx (cursor_after None evs))
                          (Fulfilled res)] ∧
      continuing_pages kv pfx None evs ∧
      S (length evs) = Nat.max 1 (ceil_div N P).
Proof.
  intros Hok P N HP Hfuel run.
  destruct (listAllKeys_mem fuel w kv pfx tr Hok HP Hfuel) as (Hout & _ & Hcalls).
  fold run in Hout, Hcalls. fold N P in Hcalls.
  exists (matching pfx (store_of w kv)).
  split; [done|]. split; [done|]. split; [apply matching_NoDup|].
  split; [apply elem_of_matching|]. split; [done|].
  destruct (listAllKeys_loop_shape fuel kv pfx None [] (mkRun w tr))
    as (evs & last & Htr & Hcont & Hstop).
  fold (listAllKeys fuel (Own kv) pfx (mkRun w tr)) in Htr, Hstop.
  fold run in Htr, Hstop. rewrite Hout in Hstop.
  destruct Hstop as (res & -> & _ & _).
  exists evs, res. split; [done|]. split; [done|].
  rewrite Htr in Hcalls. cbn [trace] in Hcalls.
  rewrite !page_calls_app, (continuing_pages_calls _ _ _ _ Hcont) in Hcalls.
  unfold page_calls at 2 in Hcalls. simpl in Hcalls. lia.
Qed.

Lemma listAllKeys_returns_all_keys_witness :
  ∃ ks : list string,
    (listAllKeys 2 (Own 1) None (mkRun liu_world [])).1 = Fulfilled ks ∧
    length ks = 3 ∧
    page_calls (trace (listAllKeys 2 (Own 1) None (mkRun liu_world [])).2) = 2.
Proof.
  destruct (listAllKeys_returns_all_keys 2 liu_world 1 None [])
    as (ks & Hout & Hlen & _ & _ & Hcalls & _).
  - reflexivity.
  - vm_compute. lia.
  - vm_compute. lia.
  - exists ks. split; [exact Hout|]. split; [exact Hlen|]. exact Hcalls.
Defined.

(** ** Folder statistics *)

(** C10.  For a mapped folder whose store is bound and healthy,
    [email_folder_stats] reports as [emailCount] the number of keys of
    that store that start with [email:]: the keys counted are exactly
    the stored keys with that prefix, each once, whatever else the store
    holds. *)
Theorem email_folder_stats_counts_email_keys (fuel : nat) (env : Env)
    (folder : string) (mapping : FolderMapping) (kv : KVNamespace)
    (w : World) (tr : list Event) :
  record_get FOLDER_BINDING_MAP folder = Some mapping →
  env !! binding mapping = Some kv →
  failing w (OpList kv) = false →
  let counted := matching (Some "email:") (store_of w kv) in
  0 < Nat.min 1000 (page_max w) →
  Nat.max 1 (ceil_div (length counted) (Nat.min 1000 (page_max w))) ≤ fuel →
  (email_folder_stats fuel env folder (mkRun w tr)).1
    = Fulfilled
        (mkToolResult
           (JsonText (JObj [ ("folder", JStr folder);
                             ("humanName", JStr (humanName mapping));
                             ("binding", JStr (binding mapping));
                             ("emailCount", JNum (Z.of_nat (length counted))) ]))
           false) ∧
  NoDup counted ∧
  (∀ k, k ∈ counted ↔
          is_Some (store_of w kv !! k) ∧ String.prefix "email:" k = true).
Proof.
  intros Hmap Hkv Hok counted HP Hfuel.
  split; [|split; [apply matching_NoDup | intros k; apply elem_of_matching]].
  rewrite (email_folder_stats_mapped _ _ _ _ _ Hmap), (env_get_bound _ _ _ Hkv).
  unfold bind.
  destruct (listAllKeys_mem fuel w kv (Some "email:") tr Hok HP Hfuel) as (Hout & _).
  destruct (listAllKeys fuel (Own kv) (Some "email:") (mkRun w tr)) as [out r'].
  simpl in Hout. by rewrite Hout.
Qed.

Lemma email_folder_stats_counts_email_keys_witness :
  (email_folder_stats 1 sample_env "Labels/Liu" (mkRun liu_world [])).1
    = Fulfilled
        (mkToolResult
           (JsonText (JObj [ ("folder", JStr "Labels/Liu");
                             ("humanName", JStr "Liu Litigation");
                             ("binding", JStr "KV_LIU");
                             ("emailCount", JNum 2) ]))
           false).
Proof.
  destruct (email_folder_stats_counts_email_keys 1 sample_env "Labels/Liu"
              (mkFolderMapping "KV_LIU" "Liu Litigation") 1 liu_world [])
    as (Hout & _).
  - reflexivity.
  - reflexivity.
  - reflexivity.
  - vm_compute. lia.
  - vm_compute. lia.
  - exact Hout.
Defined.

(** ** The split write *)

(** C1.  For a mapped folder whose store and the bodies store are bound,
    [email_store] issues the metadata put first and the body put second,
    on the world the metadata put left behind, and only if the metadata
    put was fulfilled; its outcome is that of the last put issued.  On
    the reference backend, when the metadata put succeeds and the body
    put fails, the call is rejected, the metadata entry is in the folder
    store with [body_uuid] naming the body key, and the bodies store holds
    under the body key what it held before: nothing is rolled back. *)
Theorem email_store_metadata_before_body :
  (∀ (W : Type) (B : KVBackend W) (env : Env)
     (folder key metadata body_key body : string) (mapping : FolderMapping)
     (fkv bkv : KVNamespace) (r : Run W) res1 w1 res2 w2,
     record_get FOLDER_BINDING_MAP folder = Some mapping →
     env !! binding mapping = Some fkv →
     env !! "EMAIL_BODIES" = Some bkv →
     let m1 := folder_put_metadata folder body_key (date_now (world r)) in
     let m2 := body_put_metadata folder mapping (date_now w1) in
     kv_put fkv key metadata m1 (world r) = (res1, w1) →
     kv_put bkv body_key body m2 w1 = (res2, w2) →
     email_store env folder key metadata body_key body r =
       match res1 with
       | Fulfilled _ =>
           (and_then res2 (email_store_success key body_key),
            mkRun w2 (trace r ++ [ EvPut fkv key metadata m1 res1;
                                   EvPut bkv body_key body m2 res2 ]))
       | _ =>
           (and_then res1 (email_store_success key body_key),
            mkRun w1 (trace r ++ [ EvPut fkv key metadata m1 res1 ]))
       end) ∧
  (∀ (env : Env) (folder key metadata body_key body : string)
     (mapping : FolderMapping) (fkv bkv : KVNamespace) (w : World)
     (tr : list Event),
     record_get FOLDER_BINDING_MAP folder = Some mapping →
     env !! binding mapping = Some fkv →
     env !! "EMAIL_BODIES" = Some bkv →
     failing w (OpPut fkv key) = false →
     failing w (OpPut bkv body_key) = true →
     let m1 := folder_put_metadata folder body_key (clock w) in
     let run := email_store env folder key metadata body_key body (mkRun w tr) in
     run.1 = Rejected unavailable ∧
     trace run.2 = tr ++ [ EvPut fkv key metadata m1 (Fulfilled ());
                           EvPut bkv body_key body
                             (body_put_metadata folder mapping (clock w))
                             (Rejected unavailable) ] ∧
     store_of (world run.2) fkv !! key = Some (mkEntry metadata m1) ∧
     ("body_uuid", body_key) ∈ m1 ∧
     store_of (world run.2) bkv !! body_key = store_of w bkv !! body_key).
Proof.
  split.
  - intros W B env folder key metadata body_key body mapping fkv bkv r
      res1 w1 res2 w2 Hmap Hf Hb m1 m2 H1 H2.
    rewrite (email_store_mapped _ _ _ _ _ _ _ _ _ Hmap Hf). simpl.
    fold m1. rewrite H1, Hb. destruct res1 as [[]| |]; [|done|done].
    fold m2. rewrite H2. by rewrite <- app_assoc.
  - intros env folder key metadata body_key body mapping fkv bkv w tr
      Hmap Hf Hb Hok Hfail m1 run.
    assert (Hne : (fkv, key) ≠ (bkv, body_key)) by (intros [= -> ->]; congruence).
    assert (Hrun : run =
      (Rejected unavailable,
       mkRun (mkWorld (<[fkv := <[key := mkEntry metadata m1]> (store_of w fkv)]>
                         (stores w)) (page_max w) (failing w) (clock w))
             (tr ++ [ EvPut fkv key metadata m1 (Fulfilled ());
                      EvPut bkv body_key body
                        (body_put_metadata folder mapping (clock w))
                        (Rejected unavailable) ]))).
    { subst run. rewrite (email_store_mapped _ _ _ _ _ _ _ _ _ Hmap Hf). simpl.
      unfold put_value. simpl. rewrite Hok, Hb. simpl. rewrite Hfail. simpl.
      by rewrite <- app_assoc. }
    rewrite Hrun. simpl. split; [done|]. split; [done|].
    split; [apply store_of_put_same|].
    split; [unfold m1, folder_put_metadata; set_solver|].
    by apply store_of_put_other.
Qed.

Lemma email_store_metadata_before_body_witness :
  let run := email_store sample_env "Labels/Liu" "email:1" "{}" "body-1" "Hello"
               (mkRun (sample_world bodies_down) []) in
  run.1 = Rejected unavailable ∧
  length (trace run.2) = 2 ∧
  is_Some (store_of (world run.2) 1 !! "email:1") ∧
  store_of (world run.2) 2 !! "body-1" = None.
Proof.
  destruct email_store_metadata_before_body as [Hgen Hmem].
  pose proof (Hgen World MemKV.backend sample_env "Labels/Liu" "email:1" "{}"
                "body-1" "Hello" (mkFolderMapping "KV_LIU" "Liu Litigation") 1 2
                (mkRun (sample_world bodies_down) []) _ _ _ _
                eq_refl eq_refl eq_refl eq_refl eq_refl) as Hrun.
  destruct (Hmem sample_env "Labels/Liu" "email:1" "{}" "body-1" "Hello"
              (mkFolderMapping "KV_LIU" "Liu Litigation") 1 2
              (sample_world bodies_down) [])
    as (H1 & H2 & H3 & _ & H5); try reflexivity.
  simpl. split; [exact H1|]. split; [by rewrite H2|].
  split; [by rewrite H3|]. by rewrite H5.
Defined.

(** An unmapped folder, and the folder name [constructor], which has no
    entry either and yet is not answered with the not-mapped result. *)
Lemma email_store_unmapped_writes_nothing_witness :
  let r := mkRun (sample_world healthy) [] in
  let spam := email_store sample_env "INBOX/Spam" "email:1" "{}" "body-1" "Hello" r in
  let ctor := email_store sample_env "constructor" "email:1" "{}" "body-1" "Hello" r in
  (spam.1 = Fulfilled (not_mapped "INBOX/Spam") ∧
   isError (not_mapped "INBOX/Spam") = true ∧
   world spam.2 = sample_world healthy ∧
   trace spam.2 = []) ∧
  record_get FOLDER_BINDING_MAP "constructor" = None ∧
  ctor = (Rejected (undefined_receiver "put"), r).
Proof.
  intros r spam ctor.
  destruct (email_store_unmapped_writes_nothing (B := MemKV.backend) sample_env
              "INBOX/Spam" "email:1" "{}" "body-1" "Hello" r eq_refl) as [Hspam _].
  destruct (email_store_unmapped_writes_nothing (B := MemKV.backend) sample_env
              "constructor" "email:1" "{}" "body-1" "Hello" r eq_refl) as [_ Hctor].
  split; [apply Hspam; by_table|]. split; [reflexivity|].
  destruct Hctor as [Hctor _]; [by_table|]. apply Hctor. reflexivity.
Defined.

(** ** The single-key read *)

(** Against C7 as stated: for a key the store does not hold, the result
    of [kv_key_get] carries the error flag. *)
Lemma kv_key_get_absent_key_is_error :
  ∃ res : ToolResult,
    (kv_key_get sample_env "liu" "missing" (mkRun (sample_world healthy) [])).1
      = Fulfilled res ∧
    isError res = true.
Proof. eexists. split; reflexivity. Qed.

Lemma kv_key_get_absent_key_flagged_witness :
  (kv_key_get sample_env "liu" "missing" (mkRun (sample_world healthy) [])).1
    = Fulfilled (key_not_found "missing") ∧
  (kv_key_get sample_env "nowhere" "missing" (mkRun (sample_world healthy) [])).1
    = Rejected (UnknownNamespace (unknown_namespace_message "nowhere")).
Proof.
  pose proof (kv_key_get_absent_key_flagged (B := MemKV.backend) sample_env "liu" "missing"
                (mkRun (sample_world healthy) [])) as (Habsent & _ & _ & _).
  pose proof (kv_key_get_absent_key_flagged (B := MemKV.backend) sample_env "nowhere" "missing"
                (mkRun (sample_world healthy) [])) as (_ & _ & _ & Hunknown).
  split.
  - destruct (Habsent 1 (sample_world healthy) eq_refl eq_refl) as [-> _]. reflexivity.
  - rewrite (Hunknown _ eq_refl). reflexivity.
Defined.

(** ** The bodies store and the registry *)

Lemma production_env_declared : declared_env production_env.
Proof.
  unfold declared_env, production_env. rewrite dom_list_to_map_L.
  f_equal.
Qed.

Lemma declared_env_unbound (env : Env) (b : string) :
  declared_env env → b ∉ Env_bindings → env !! b = None.
Proof.
  unfold declared_env. intros Hdom Hb. apply not_elem_of_dom.
  rewrite Hdom. by rewrite elem_of_list_to_set.
Qed.

(** In an environment with exactly the declared bindings the body write of
    [email_store] has no store to go to: once the metadata put succeeded
    the call throws. *)
Lemma email_store_declared_env_rejects (W : Type) (B : KVBackend W) (env : Env)
    (folder key metadata body_key body : string) (mapping : FolderMapping)
    (fkv : KVNamespace) (r : Run W) (w1 : W) :
  declared_env env →
  record_get FOLDER_BINDING_MAP folder = Some mapping →
  env !! binding mapping = Some fkv →
  kv_put fkv key metadata (folder_put_metadata folder body_key (date_now (world r)))
         (world r) = (Fulfilled (), w1) →
  (email_store env folder key metadata body_key body r).1
    = Rejected (undefined_receiver "put").
Proof.
  intros Hdecl Hmap Hf Hput.
  rewrite (email_store_mapped _ _ _ _ _ _ _ _ _ Hmap Hf). simpl. rewrite Hput.
  rewrite (declared_env_unbound env "EMAIL_BODIES" Hdecl); [done|].
  apply (bool_decide_unpack _). by vm_compute.
Qed.

(** C9.  [interface Env] declares no [EMAIL_BODIES] and [NAMESPACE_MAP] has
    no ["email-bodies"]; hence in every environment with exactly the
    declared bindings [resolveKV] throws the unknown-namespace error on
    ["email-bodies"], although the result of [namespaces_list] lists that
    name under [system] and [email_store] sends every body to the store
    bound under [EMAIL_BODIES]. *)
Theorem email_bodies_not_resolvable :
  ("EMAIL_BODIES" ∉ Env_bindings) ∧
  record_get NAMESPACE_MAP "email-bodies" = None ∧
  (∀ env : Env, declared_env env →
     resolveKV env "email-bodies"
       = inl (UnknownNamespace (unknown_namespace_message "email-bodies"))) ∧
  (∀ (W : Type) (B : KVBackend W) (r : Run W),
     ∃ (total : Json) (categories : JSRecord Json) (listed : list Json),
       namespaces_list r
         = (Fulfilled
              (mkToolResult
                 (JsonText (JObj [ ("total", total);
                                   ("categories", JObj categories) ]))
                 false), r) ∧
       record_get categories "system" = Some (JArr listed) ∧
       JStr "email-bodies" ∈ listed) ∧
  (∀ (W : Type) (B : KVBackend W) (env : Env)
     (folder key metadata body_key body : string) (mapping : FolderMapping)
     (fkv : KVNamespace) (r : Run W) (w1 : W),
     record_get FOLDER_BINDING_MAP folder = Some mapping →
     env !! binding mapping = Some fkv →
     let m1 := folder_put_metadata folder body_key (date_now (world r)) in
     kv_put fkv key metadata m1 (world r) = (Fulfilled (), w1) →
     email_store env folder key metadata body_key body r =
       bind (await_put (env_get env "EMAIL_BODIES") body_key body
               (body_put_metadata folder mapping))
            (λ _, ret (email_store_success key body_key))
            (mkRun w1 (trace r ++ [EvPut fkv key metadata m1 (Fulfilled ())]))).
Proof.
  split; [by_table|].
  split; [reflexivity|].
  split; [|split].
  - intros env Hdecl. apply resolveKV_unknown.
    + apply (declared_env_unbound env "email-bodies" Hdecl). by_table.
    + by_table.
    + intros b Hb. vm_compute in Hb. discriminate.
  - intros W B r. eexists _, _, _. split; [reflexivity|]. split; [reflexivity|].
    apply list_elem_of_further, list_elem_of_here.
  - intros W B env folder key metadata body_key body mapping fkv r w1 Hmap Hf m1 Hput.
    rewrite (email_store_mapped _ _ _ _ _ _ _ _ _ Hmap Hf). simpl.
    fold m1. rewrite Hput. unfold bind, await_put.
    destruct (env !! "EMAIL_BODIES") as [bkv|] eqn:Hb.
    + rewrite (env_get_bound _ _ _ Hb). simpl.
      by destruct (kv_put bkv body_key body _ w1) as [[[]| |] w2].
    + by rewrite (env_get_unbound _ _ Hb EMAIL_BODIES_own).
Qed.

Lemma email_bodies_not_resolvable_witness :
  declared_env production_env ∧
  resolveKV production_env "email-bodies"
    = inl (UnknownNamespace (unknown_namespace_message "email-bodies")) ∧
  (∃ (total : Json) (categories : JSRecord Json) (listed : list Json),
     (namespaces_list (mkRun (sample_world healthy) [])).1
       = Fulfilled
           (mkToolResult
              (JsonText (JObj [ ("total", total); ("categories", JObj categories) ]))
              false) ∧
     record_get categories "system" = Some (JArr listed) ∧
     JStr "email-bodies" ∈ listed) ∧
  (email_store production_env "Labels/Liu" "email:1" "{}" "body-1" "Hello"
     (mkRun (sample_world healthy) [])).1
    = Rejected (undefined_receiver "put").
Proof.
  destruct email_bodies_not_resolvable as (_ & _ & Hres & Hlist & Hstore).
  split; [exact production_env_declared|].
  split; [exact (Hres production_env production_env_declared)|].
  split.
  - destruct (Hlist World MemKV.backend (mkRun (sample_world healthy) []))
      as (total & categories & listed & Hrun & Hsystem & Hin).
    exists total, categories, listed. by rewrite Hrun.
  - rewrite (Hstore World MemKV.backend production_env "Labels/Liu" "email:1" "{}"
               "body-1" "Hello" (mkFolderMapping "KV_LIU" "Liu Litigation") 9
               (mkRun (sample_world healthy) []) _ eq_refl eq_refl eq_refl).
    reflexivity.
Defined.

(** ** The fleet health scan *)

Lemma skipped_false (name : string) :
  name ≠ "email-bodies" → name ≠ "bridge-accounts" → skipped name = false.
Proof.
  intros H1 H2. unfold skipped. apply orb_false_iff. by rewrite !String.eqb_neq.
Qed.

(** C5.  [pipeline_status] never throws, whatever the stores do: a probe
    that fails is caught and the scan goes on.  On the reference backend,
    whose stores honour [limit: 1], it returns with, for every entry of
    [NAMESPACE_MAP] that is not skipped: 0 when the store is empty, 1 when
    it holds exactly one key, -1 when it holds two or more, and -1 when
    the probe fails (a rejected [list] or no store under the binding),
    whatever happens to the probes of the other namespaces. *)
Theorem pipeline_status_counts :
  (∀ (W : Type) (B : KVBackend W) (env : Env) (r : Run W) (e : Fault),
     (pipeline_status env r).1 ≠ Rejected e) ∧
  (∀ (env : Env) (w : World) (tr : list Event),
     0 < page_max w →
     ∃ stats : gmap string Z,
       (pipeline_status env (mkRun w tr)).1
         = Fulfilled
             (mkToolResult
                (JsonText (JObj [ ("status", JStr "ok");
                                  ("namespace_counts", JDict (JNum <$> stats));
                                  ("note", JStr pipeline_status_note) ]))
                false) ∧
       ∀ name bindingKey,
         (name, bindingKey) ∈ Object_entries NAMESPACE_MAP →
         name ≠ "email-bodies" → name ≠ "bridge-accounts" →
         (∀ kv, env !! bindingKey = Some kv → failing w (OpList kv) = false →
            (size (store_of w kv) = 0 → stats !! name = Some 0%Z) ∧
            (size (store_of w kv) = 1 → stats !! name = Some 1%Z) ∧
            (2 ≤ size (store_of w kv) → stats !! name = Some (-1)%Z)) ∧
         (∀ kv, env !! bindingKey = Some kv → failing w (OpList kv) = true →
            stats !! name = Some (-1)%Z) ∧
         (env !! bindingKey = None → stats !! name = Some (-1)%Z)).
Proof.
  split; [intros W B env r e; apply pipeline_status_not_rejected|].
  intros env w tr Hpage.
  destruct (scan_namespaces_mem env w Hpage (Object_entries NAMESPACE_MAP) ∅ tr)
    as (stats & tr' & Hscan & _ & Hcounts).
  exists stats. split.
  - unfold pipeline_status, bind. by rewrite Hscan.
  - intros name b Hin Hne1 Hne2.
    destruct (Hcounts NAMESPACE_MAP_keys_NoDup name b Hin (skipped_false _ Hne1 Hne2))
      as (c & Hc & Hzero & Hfail & Hnone).
    rewrite Hc. split; [|split].
    + intros kv Hkv Hok. destruct (Hzero kv Hkv Hok) as (H0 & H1 & H2).
      repeat split; intros Hsz; f_equal; auto.
    + intros kv Hkv Hdown. f_equal. eauto.
    + intros Hkv. f_equal. auto.
Qed.

Lemma pipeline_status_counts_witness :
  ∃ stats : gmap string Z,
    (pipeline_status fleet_env (mkRun fleet_world [])).1
      = Fulfilled
          (mkToolResult
             (JsonText (JObj [ ("status", JStr "ok");
                               ("namespace_counts", JDict (JNum <$> stats));
                               ("note", JStr pipeline_status_note) ]))
             false) ∧
    stats !! "liu" = Some 0%Z ∧
    stats !! "ico" = Some 1%Z ∧
    stats !! "gld" = Some (-1)%Z ∧
    stats !! "hmcts" = Some (-1)%Z ∧
    stats !! "parliament" = Some (-1)%Z.
Proof.
  destruct pipeline_status_counts as [_ Hscan].
  destruct (Hscan fleet_env fleet_world []) as (stats & Hout & H).
  - vm_compute. lia.
  - exists stats. split; [exact Hout|].
    assert (Hin : ∀ e, In e NAMESPACE_MAP → e ∈ Object_entries NAMESPACE_MAP).
    { intros e He. by apply list_elem_of_In. }
    split; [|split; [|split; [|split]]].
    + destruct (H "liu" "KV_LIU") as (Hok & _); [apply Hin; simpl; tauto|done|done|].
      destruct (Hok 1) as (H0 & _); [reflexivity|reflexivity|]. apply H0. reflexivity.
    + destruct (H "ico" "KV_ICO") as (Hok & _); [apply Hin; simpl; tauto|done|done|].
      destruct (Hok 2) as (_ & H1 & _); [reflexivity|reflexivity|]. apply H1. reflexivity.
    + destruct (H "gld" "KV_GLD") as (Hok & _); [apply Hin; simpl; tauto|done|done|].
      destruct (Hok 3) as (_ & _ & H2); [reflexivity|reflexivity|]. apply H2.
      vm_compute. lia.
    + destruct (H "hmcts" "KV_HMCTS") as (_ & Hdown & _); [apply Hin; simpl; tauto|done|done|].
      apply (Hdown 4); reflexivity.
    + destruct (H "parliament" "KV_PARLIAMENT") as (_ & _ & Hnone);
        [apply Hin; simpl; tauto|done|done|].
      apply Hnone. reflexivity.
Defined.

(** ** The bulk read *)

(** Against C2 as stated: the read of [a] succeeds and the read of [b]
    fails; in whatever order the two complete, the call is rejected and
    carries no entry for [a]. *)
Lemma kv_keys_bulk_get_one_failure_rejects_all :
  let r := mkRun (bulk_world read_b_down) [] in
  (spawn_reads (Own 1) ["a"; "b"] r).1
    = [ ("a", Fulfilled (Some "1")); ("b", Rejected unavailable) ] ∧
  (∀ picks : list nat,
     (kv_keys_bulk_get_tool picks sample_env "liu" ["a"; "b"] r).1
       = Rejected unavailable).
Proof.
  intros r. split; [reflexivity|]. intros picks.
  rewrite (kv_keys_bulk_get_tool_run (B := MemKV.backend) picks sample_env "liu"
             ["a"; "b"] 1 r); [|simpl; lia|reflexivity].
  change (spawn_reads (Own 1) ["a"; "b"] r).1
    with [ ("a", Fulfilled (Some "1")); ("b", Rejected unavailable) ].
  destruct (promise_all_reads_rejected picks
              [ ("a", Fulfilled (Some "1")); ("b", Rejected unavailable) ])
    as (e & k & -> & Hmem).
  - apply Exists_cons_tl, Exists_cons_hd. by exists unavailable.
  - apply elem_of_cons in Hmem as [[=]|Hmem].
    apply elem_of_cons in Hmem as [[= -> ->]|Hmem]; [done|].
    by apply elem_of_nil in Hmem.
Qed.

Lemma kv_keys_bulk_get_all_or_nothing_witness :
  (∃ results : gmap string (option string),
     (kv_keys_bulk_get_tool [1; 0] sample_env "liu" ["a"; "zz"]
        (mkRun (bulk_world healthy) [])).1
       = Fulfilled (mkToolResult (JsonText (JDict (json_of_value <$> results)))
                                 false) ∧
     is_Some (results !! "a") ∧ is_Some (results !! "zz")) ∧
  trace (kv_keys_bulk_get_tool [1; 0] sample_env "liu" ["a"; "zz"]
           (mkRun (bulk_world healthy) [])).2
    = [ EvGet 1 "a" (Fulfilled (Some "1")); EvGet 1 "zz" (Fulfilled None) ] ∧
  (∃ e, (kv_keys_bulk_get_tool [1; 0] sample_env "liu" ["a"; "b"]
           (mkRun (bulk_world read_b_down) [])).1 = Rejected e).
Proof.
  destruct (kv_keys_bulk_get_all_or_nothing (B := MemKV.backend) [1; 0] sample_env
              "liu" ["a"; "zz"] 1 (mkRun (bulk_world healthy) []))
    as (_ & Htrace & Hall & _); [simpl; lia|reflexivity|].
  destruct (kv_keys_bulk_get_all_or_nothing (B := MemKV.backend) [1; 0] sample_env
              "liu" ["a"; "b"] 1 (mkRun (bulk_world read_b_down) []))
    as (_ & _ & _ & Hrej); [simpl; lia|reflexivity|].
  split; [|split].
  - destruct Hall as (results & Hout & Hin).
    { repeat constructor; eexists; reflexivity. }
    exists results. split; [exact Hout|].
    split.
    + destruct (Hin "a") as (v & Hv & _); [apply list_elem_of_here|discriminate|].
      by exists v.
    + destruct (Hin "zz") as (v & Hv & _);
        [apply list_elem_of_further, list_elem_of_here|discriminate|]. by exists v.
  - rewrite Htrace. reflexivity.
  - destruct Hrej as (e & k & Hout & _).
    { apply Exists_cons_tl, Exists_cons_hd. by exists unavailable. }
    by exists e.
Defined.

(** * Further properties *)

(** ** The registry in the declared environment *)

Lemma declared_env_bound (env : Env) (b : string) :
  declared_env env → b ∈ Env_bindings → is_Some (env !! b).
Proof.
  unfold declared_env. intros Hdom Hb. apply elem_of_dom.
  rewrite Hdom. by apply elem_of_list_to_set.
Qed.

Lemma NAMESPACE_MAP_entry_declared (name b : string) :
  (name, b) ∈ Object_entries NAMESPACE_MAP →
  (name ∉ Env_bindings) ∧ (b ∈ Env_bindings).
Proof.
  intros Hin.
  assert (Hall : Forall (λ e : string * string,
                           (e.1 ∉ Env_bindings) ∧ (e.2 ∈ Env_bindings))
                        NAMESPACE_MAP).
  { apply (bool_decide_unpack _). by vm_compute. }
  rewrite Forall_forall in Hall. apply (Hall _ Hin).
Qed.

Lemma NAMESPACE_MAP_registered_own (name : string) :
  name ∈ Object_keys NAMESPACE_MAP → name ∉ Object_prototype.
Proof.
  intros Hname Hin. apply NAMESPACE_MAP_names_own in Hin.
  by apply record_get_None in Hin.
Qed.

Lemma Env_bindings_own (b : string) : b ∈ Env_bindings → b ∉ Object_prototype.
Proof.
  intros Hb.
  assert (Hall : Forall (λ b, b ∉ Object_prototype) Env_bindings) by by_table.
  rewrite Forall_forall in Hall. by apply Hall.
Qed.

Lemma Object_keys_entry {V : Type} (o : JSRecord V) (k : string) :
  k ∈ Object_keys o → ∃ v, (k, v) ∈ o.
Proof.
  unfold Object_keys. intros ([k' v] & -> & Hin)%list_elem_of_fmap. by exists v.
Qed.

Lemma Object_entries_key {V : Type} (o : JSRecord V) (k : string) (v : V) :
  (k, v) ∈ o → k ∈ Object_keys o.
Proof. intros Hin. unfold Object_keys. apply list_elem_of_fmap. by exists (k, v). Qed.

Lemma resolveKV_registered (env : Env) (name b : string) :
  declared_env env →
  (name, b) ∈ Object_entries NAMESPACE_MAP →
  ∃ kv, env !! b = Some kv ∧ resolveKV env name = inr (Own kv).
Proof.
  intros Hdecl Hin. destruct (NAMESPACE_MAP_entry_declared name b Hin) as [Hname Hb].
  destruct (declared_env_bound env b Hdecl Hb) as [kv Hkv]. exists kv. split; [done|].
  apply (resolveKV_name env name b kv); [|..|done].
  - by apply declared_env_unbound.
  - eapply NAMESPACE_MAP_registered_own, Object_entries_key, Hin.
  - by apply record_get_NoDup; [apply NAMESPACE_MAP_keys_NoDup|].
Qed.

(** What [resolveKV] does with an input in an environment with exactly
    the declared bindings: one of three things. *)
Lemma resolveKV_declared (env : Env) (s : string) :
  declared_env env →
  ((s ∈ Env_bindings ∨ s ∈ Object_keys NAMESPACE_MAP) ∧ (s ∉ Object_prototype) ∧
   ∃ kv, resolveKV env s = inr (Own kv)) ∨
  ((s ∉ Env_bindings) ∧ (s ∉ Object_keys NAMESPACE_MAP) ∧ s ∈ Object_prototype ∧
   resolveKV env s = inr (Inherited s)) ∨
  ((s ∉ Env_bindings) ∧ (s ∉ Object_keys NAMESPACE_MAP) ∧ (s ∉ Object_prototype) ∧
   resolveKV env s = inl (UnknownNamespace (unknown_namespace_message s))).
Proof.
  intros Hdecl. destruct (decide (s ∈ Env_bindings)) as [Hb|Hb].
  { left. split; [by left|]. split; [by apply Env_bindings_own|].
    destruct (declared_env_bound env s Hdecl Hb) as [kv Hkv]. exists kv.
    by apply resolveKV_binding. }
  pose proof (declared_env_unbound env s Hdecl Hb) as Hnone.
  destruct (decide (s ∈ Object_keys NAMESPACE_MAP)) as [Hn|Hn].
  { left. split; [by right|]. split; [by apply NAMESPACE_MAP_registered_own|].
    apply Object_keys_entry in Hn as [b Hin].
    destruct (resolveKV_registered env s b Hdecl Hin) as (kv & _ & Hres). by exists kv. }
  right. destruct (decide (s ∈ Object_prototype)) as [Hp|Hp]; [left|right].
  - split; [done|]. split; [done|]. split; [done|]. by apply resolveKV_inherited.
  - split; [done|]. split; [done|]. split; [done|]. apply resolveKV_unknown; [done..|].
    intros b Hsome. apply record_get_None in Hn. congruence.
Qed.

(** X1.  In an environment with exactly the declared bindings,
    [resolveKV] returns a store exactly for the declared binding names and
    the registered human-readable names (for a registered name, the store
    bound under its binding); it returns an inherited member, which is no
    store, exactly for the names of the members of [Object.prototype];
    and it throws exactly for every other input. *)
Theorem resolveKV_declared_env_domain (env : Env) (s : string) :
  declared_env env →
  ((∃ kv, resolveKV env s = inr (Own kv)) ↔
     s ∈ Env_bindings ∨ s ∈ Object_keys NAMESPACE_MAP) ∧
  (resolveKV env s = inr (Inherited s) ↔ s ∈ Object_prototype) ∧
  ((∃ e, resolveKV env s = inl e) ↔
     (s ∉ Env_bindings) ∧ (s ∉ Object_keys NAMESPACE_MAP) ∧ (s ∉ Object_prototype)) ∧
  (∀ b, (s, b) ∈ Object_entries NAMESPACE_MAP →
        ∃ kv, env !! b = Some kv ∧ resolveKV env s = inr (Own kv)).
Proof.
  intros Hdecl. split; [|split; [|split]]; [..|intros b Hb; by apply resolveKV_registered].
  - destruct (resolveKV_declared env s Hdecl)
      as [(Hs & _ & Hres)|[(Hb & Hn & _ & Hres)|(Hb & Hn & _ & Hres)]].
    + by split.
    + rewrite Hres. split; [by intros [kv [=]] | by intros [?|?]].
    + rewrite Hres. split; [by intros [kv [=]] | by intros [?|?]].
  - destruct (resolveKV_declared env s Hdecl)
      as [(_ & Hp & kv & Hres)|[(_ & _ & Hp & Hres)|(_ & _ & Hp & Hres)]].
    + rewrite Hres. by split.
    + by split.
    + rewrite Hres. by split.
  - destruct (resolveKV_declared env s Hdecl)
      as [(Hs & _ & kv & Hres)|[(_ & _ & Hp & Hres)|(Hb & Hn & Hp & Hres)]].
    + rewrite Hres. split; [by intros [e [=]]|]. intros (Hb & Hn & _). by destruct Hs.
    + rewrite Hres. split; [by intros [e [=]] | by intros (_ & _ & ?)].
    + split; [done|]. intros _. by eexists.
Qed.

Lemma resolveKV_declared_env_domain_witness :
  (∃ kv, resolveKV production_env "parliament" = inr (Own kv)) ∧
  (∃ e, resolveKV production_env "email-bodies" = inl e) ∧
  resolveKV production_env "constructor" = inr (Inherited "constructor").
Proof.
  destruct (resolveKV_declared_env_domain production_env "parliament"
              production_env_declared) as ([_ Hyes] & _).
  destruct (resolveKV_declared_env_domain production_env "email-bodies"
              production_env_declared) as (_ & _ & [_ Hno] & _).
  destruct (resolveKV_declared_env_domain production_env "constructor"
              production_env_declared) as (_ & [_ Hproto] & _).
  split; [apply Hyes; right; by_table|].
  split; [apply Hno; repeat split; by_table|].
  apply Hproto. by_table.
Defined.

Lemma snd_NoDup_inj {A C : Type} (l : list (A * C)) (a1 a2 : A) (c : C) :
  NoDup l.*2 → (a1, c) ∈ l → (a2, c) ∈ l → a1 = a2.
Proof.
  intros Hnd H1 H2.
  apply list_elem_of_lookup in H1 as [i Hi]. apply list_elem_of_lookup in H2 as [j Hj].
  assert (i = j).
  { apply (NoDup_lookup l.*2 i j c Hnd); rewrite list_lookup_fmap.
    - by rewrite Hi.
    - by rewrite Hj. }
  subst j. congruence.
Qed.

Lemma NAMESPACE_MAP_bindings_NoDup : NoDup NAMESPACE_MAP.*2.
Proof. by_table. Qed.

(** X2.  No two registered names share a store: in an environment with
    exactly the declared bindings, bound to pairwise distinct stores, two
    different registered names both resolve to a store, and the two
    stores are different. *)
Theorem registered_names_resolve_apart (env : Env) (n1 n2 : string) :
  declared_env env →
  (∀ b1 b2 kv, env !! b1 = Some kv → env !! b2 = Some kv → b1 = b2) →
  n1 ∈ Object_keys NAMESPACE_MAP →
  n2 ∈ Object_keys NAMESPACE_MAP →
  n1 ≠ n2 →
  ∃ kv1 kv2,
    resolveKV env n1 = inr (Own kv1) ∧
    resolveKV env n2 = inr (Own kv2) ∧
    kv1 ≠ kv2.
Proof.
  intros Hdecl Hinj [b1 Hb1]%Object_keys_entry [b2 Hb2]%Object_keys_entry Hne.
  destruct (resolveKV_registered env n1 b1 Hdecl Hb1) as (kv1 & Hkv1 & Hr1).
  destruct (resolveKV_registered env n2 b2 Hdecl Hb2) as (kv2 & Hkv2 & Hr2).
  exists kv1, kv2. split; [done|]. split; [done|]. intros ->.
  assert (b1 = b2) by by eapply Hinj. subst b2. apply Hne.
  by eapply (snd_NoDup_inj NAMESPACE_MAP), Hb2; [apply NAMESPACE_MAP_bindings_NoDup|].
Qed.

Lemma production_env_stores_apart (b1 b2 : string) (kv : KVNamespace) :
  production_env !! b1 = Some kv → production_env !! b2 = Some kv → b1 = b2.
Proof.
  unfold production_env. intros H1%elem_of_list_to_map_2 H2%elem_of_list_to_map_2.
  eapply snd_NoDup_inj; [|exact H1|exact H2].
  apply (bool_decide_unpack _). by vm_compute.
Qed.

Lemma registered_names_resolve_apart_witness :
  ∃ kv1 kv2,
    resolveKV production_env "liu" = inr (Own kv1) ∧
    resolveKV production_env "hk-law" = inr (Own kv2) ∧
    kv1 ≠ kv2.
Proof.
  apply (registered_names_resolve_apart production_env "liu" "hk-law"
           production_env_declared production_env_stores_apart);
    [by_table | by_table | discriminate].
Defined.

(** ** Discovery and folder routing *)

Lemma listed_names_registered (category name : string) (names : list string) :
  (category, names) ∈ namespaces_categories → name ∈ names →
  name = "email-bodies" ∨ name ∈ Object_keys NAMESPACE_MAP.
Proof.
  intros Hcat Hname.
  assert (Hall : Forall (λ c : string * list string,
                           Forall (λ n, n = "email-bodies"
                                        ∨ n ∈ Object_keys NAMESPACE_MAP) c.2)
                        namespaces_categories).
  { apply (bool_decide_unpack _). by vm_compute. }
  rewrite Forall_forall in Hall. specialize (Hall _ Hcat).
  rewrite Forall_forall in Hall. by apply Hall.
Qed.

(** X3.  Discovery against resolution: [namespaces_list] reports
    [total: 21] and five categories; every name it lists other than
    ["email-bodies"] is accepted by [resolveKV] in an environment with
    exactly the declared bindings, and every registered name is listed
    under some category. *)
Theorem namespaces_list_names_resolve :
  (∀ (W : Type) (B : KVBackend W) (r : Run W),
     namespaces_list r
       = (Fulfilled
            (mkToolResult
               (JsonText
                  (JObj [ ("total", JNum 21);
                          ("categories",
                            JObj (map (λ c, (c.1, JArr (map JStr c.2)))
                                      namespaces_categories)) ]))
               false), r)) ∧
  (∀ (env : Env) (category name : string) (names : list string),
     declared_env env →
     (category, names) ∈ namespaces_categories → name ∈ names →
     name ≠ "email-bodies" →
     ∃ kv, resolveKV env name = inr (Own kv)) ∧
  (∀ name : string,
     name ∈ Object_keys NAMESPACE_MAP →
     ∃ category names, (category, names) ∈ namespaces_categories ∧ name ∈ names).
Proof.
  split; [done|]. split.
  - intros env category name names Hdecl Hcat Hname Hne.
    destruct (listed_names_registered category name names Hcat Hname) as [->|Hreg];
      [done|].
    apply Object_keys_entry in Hreg as [b Hb].
    destruct (resolveKV_registered env name b Hdecl Hb) as (kv & _ & Hres).
    by exists kv.
  - intros name Hname.
    assert (Hall : Forall (λ n, Exists (λ c : string * list string, n ∈ c.2)
                                       namespaces_categories)
                          (Object_keys NAMESPACE_MAP)).
    { apply (bool_decide_unpack _). by vm_compute. }
    rewrite Forall_forall in Hall. specialize (Hall _ Hname).
    apply Exists_exists in Hall as ([category names] & Hcat & Hin).
    by exists category, names.
Qed.

Lemma namespaces_list_names_resolve_witness :
  ∃ kv, resolveKV production_env "bridge-accounts" = inr (Own kv).
Proof.
  destruct namespaces_list_names_resolve as (_ & Hres & _).
  apply (Hres production_env "system" "bridge-accounts"
           ["bridge-accounts"; "email-bodies"] production_env_declared).
  - apply list_elem_of_here.
  - apply list_elem_of_here.
  - discriminate.
Defined.






(** ** The split write on the reference backend *)

Lemma store_of_world_with (w : World) (kv kv' : KVNamespace) (key val : string)
    (meta : PutMetadata) :
  store_of (world_with w kv key val meta) kv'
    = if decide (kv = kv') then <[key := mkEntry val meta]> (store_of w kv)
      else store_of w kv'.
Proof.
  unfold world_with, store_of at 1. simpl. destruct (decide (kv = kv')) as [<-|Hne].
  - by rewrite lookup_insert_eq.
  - by rewrite lookup_insert_ne.
Qed.

Lemma put_value_ok (w : World) (kv : KVNamespace) (key val : string)
    (meta : PutMetadata) :
  failing w (OpPut kv key) = false →
  kv_put kv key val meta w = (Fulfilled (), world_with w kv key val meta).
Proof.
  intros Hok. change (kv_put kv key val meta w) with (put_value kv key val meta w).
  unfold put_value. by rewrite Hok.
Qed.

(** A split write whose two puts succeed. *)
Lemma email_store_mem (env : Env) (folder key metadata body_key body : string)
    (mapping : FolderMapping) (fkv bkv : KVNamespace) (w : World) (tr : list Event) :
  record_get FOLDER_BINDING_MAP folder = Some mapping →
  env !! binding mapping = Some fkv →
  env !! "EMAIL_BODIES" = Some bkv →
  failing w (OpPut fkv key) = false →
  failing w (OpPut bkv body_key) = false →
  let m1 := folder_put_metadata folder body_key (clock w) in
  let m2 := body_put_metadata folder mapping (clock w) in
  email_store env folder key metadata body_key body (mkRun w tr)
    = (Fulfilled (email_store_success key body_key),
       mkRun (world_with (world_with w fkv key metadata m1) bkv body_key body m2)
             (tr ++ [ EvPut fkv key metadata m1 (Fulfilled ());
                      EvPut bkv body_key body m2 (Fulfilled ()) ])).
Proof.
  intros Hmap Hf Hb Hok1 Hok2 m1 m2.
  rewrite (email_store_mapped _ _ _ _ _ _ _ _ _ Hmap Hf). cbn [world trace date_now backend].
  fold m1. rewrite (put_value_ok w fkv key metadata m1 Hok1), Hb.
  cbv beta iota zeta. change (clock (world_with w fkv key metadata m1)) with (clock w).
  fold m2.
  rewrite (put_value_ok (world_with w fkv key metadata m1) bkv body_key body m2 Hok2).
  by rewrite <- app_assoc.
Qed.

Lemma kv_key_get_mem (env : Env) (namespace key : string) (kv : KVNamespace)
    (w : World) (tr : list Event) :
  resolveKV env namespace = inr (Own kv) →
  failing w (OpGet kv key) = false →
  (kv_key_get env namespace key (mkRun w tr)).1
    = Fulfilled (get_result key (store_of w kv !! key)).
Proof.
  intros Hres Hok. unfold kv_key_get, bind, sync, ret, await_get. rewrite Hres. simpl.
  unfold get_value. rewrite Hok. simpl. by destruct (store_of w kv !! key).
Qed.

(** X5.  Round trip of the split write: after an [email_store] whose two
    puts succeed, [kv_key_get] on the folder's binding returns the
    metadata under the metadata key and [kv_key_get] on [EMAIL_BODIES]
    returns the body under the body key, provided the two writes did not
    go to the same key of the same store. *)
Theorem email_store_then_get (env : Env)
    (folder key metadata body_key body : string) (mapping : FolderMapping)
    (fkv bkv : KVNamespace) (w : World) (tr : list Event) :
  record_get FOLDER_BINDING_MAP folder = Some mapping →
  env !! binding mapping = Some fkv →
  env !! "EMAIL_BODIES" = Some bkv →
  (∀ op, failing w op = false) →
  (fkv, key) ≠ (bkv, body_key) →
  let stored := email_store env folder key metadata body_key body (mkRun w tr) in
  stored.1 = Fulfilled (email_store_success key body_key) ∧
  (kv_key_get env (binding mapping) key stored.2).1
    = Fulfilled (mkToolResult (PlainText metadata) false) ∧
  (kv_key_get env "EMAIL_BODIES" body_key stored.2).1
    = Fulfilled (mkToolResult (PlainText body) false).
Proof.
  intros Hmap Hf Hb Hok Hne stored.
  unfold stored.
  rewrite (email_store_mem env folder key metadata body_key body mapping fkv bkv w tr
             Hmap Hf Hb (Hok _) (Hok _)).
  cbn [fst snd]. split; [done|]. split.
  - rewrite (kv_key_get_mem env (binding mapping) key fkv _ _
               (resolveKV_binding env _ fkv Hf)) by apply Hok.
    rewrite store_of_world_with. destruct (decide (bkv = fkv)) as [->|Hkv].
    + rewrite lookup_insert_ne by congruence.
      rewrite store_of_world_with, decide_True by done.
      by rewrite lookup_insert_eq.
    + rewrite store_of_world_with, decide_True by done.
      by rewrite lookup_insert_eq.
  - rewrite (kv_key_get_mem env "EMAIL_BODIES" body_key bkv _ _
               (resolveKV_binding env _ bkv Hb)) by apply Hok.
    rewrite store_of_world_with, decide_True by done.
    by rewrite lookup_insert_eq.
Qed.

Lemma email_store_then_get_witness :
  let stored := email_store sample_env "Labels/Liu" "email:1" "{}" "body-1" "Hello"
                  (mkRun (sample_world healthy) []) in
  (kv_key_get sample_env "KV_LIU" "email:1" stored.2).1
    = Fulfilled (mkToolResult (PlainText "{}") false) ∧
  (kv_key_get sample_env "EMAIL_BODIES" "body-1" stored.2).1
    = Fulfilled (mkToolResult (PlainText "Hello") false).
Proof.
  destruct (email_store_then_get sample_env "Labels/Liu" "email:1" "{}" "body-1"
              "Hello" (mkFolderMapping "KV_LIU" "Liu Litigation") 1 2
              (sample_world healthy) [])
    as (_ & Hmeta & Hbody); try reflexivity; [discriminate|].
  split; [exact Hmeta|exact Hbody].
Defined.

Lemma FOLDER_BINDING_MAP_binding_declared (folder : string) (m : FolderMapping) :
  record_get FOLDER_BINDING_MAP folder = Some m → binding m ∈ Env_bindings.
Proof.
  intros Hin%record_get_elem.
  assert (Hall : Forall (λ e : string * FolderMapping, binding e.2 ∈ Env_bindings)
                        FOLDER_BINDING_MAP).
  { apply (bool_decide_unpack _). by vm_compute. }
  rewrite Forall_forall in Hall. apply (Hall _ Hin).
Qed.

(** X6.  In an environment with exactly the declared bindings, on healthy
    stores, [email_store] on any mapped folder writes the metadata entry
    into the folder's store and then throws, because no store is bound
    under [EMAIL_BODIES]: one put is issued, the metadata entry stays, and
    no body is stored anywhere. *)
Theorem email_store_declared_env_dangling (env : Env)
    (folder key metadata body_key body : string) (mapping : FolderMapping)
    (w : World) (tr : list Event) :
  declared_env env →
  record_get FOLDER_BINDING_MAP folder = Some mapping →
  (∀ op, failing w op = false) →
  let m1 := folder_put_metadata folder body_key (clock w) in
  let run := email_store env folder key metadata body_key body (mkRun w tr) in
  ∃ fkv,
    env !! binding mapping = Some fkv ∧
    run.1 = Rejected (undefined_receiver "put") ∧
    trace run.2 = tr ++ [EvPut fkv key metadata m1 (Fulfilled ())] ∧
    world run.2 = world_with w fkv key metadata m1 ∧
    store_of (world run.2) fkv !! key = Some (mkEntry metadata m1).
Proof.
  intros Hdecl Hmap Hok m1 run.
  destruct (declared_env_bound env (binding mapping) Hdecl
              (FOLDER_BINDING_MAP_binding_declared folder mapping Hmap)) as [fkv Hf].
  exists fkv. split; [done|].
  assert (Hrun : run = (Rejected (undefined_receiver "put"),
                        mkRun (world_with w fkv key metadata m1)
                              (tr ++ [EvPut fkv key metadata m1 (Fulfilled ())]))).
  { unfold run. rewrite (email_store_mapped _ _ _ _ _ _ _ _ _ Hmap Hf).
    cbn [world trace date_now backend]. fold m1.
    rewrite (put_value_ok w fkv key metadata m1 (Hok _)).
    rewrite (declared_env_unbound env "EMAIL_BODIES" Hdecl); [done|].
    apply (bool_decide_unpack _). by vm_compute. }
  rewrite Hrun. cbn [fst snd world trace]. repeat split.
  rewrite store_of_world_with, decide_True by done. apply lookup_insert_eq.
Qed.

Lemma email_store_declared_env_dangling_witness :
  let run := email_store production_env "INBOX/Courts/Supreme" "email:1" "{}"
               "body-1" "Hello" (mkRun production_world []) in
  run.1 = Rejected (undefined_receiver "put") ∧ length (trace run.2) = 1.
Proof.
  destruct (email_store_declared_env_dangling production_env "INBOX/Courts/Supreme"
              "email:1" "{}" "body-1" "Hello"
              (mkFolderMapping "KV_SUPREME" "Supreme Court") production_world []
              production_env_declared eq_refl (λ _, eq_refl))
    as (fkv & _ & Hout & Htr & _).
  split; [exact Hout|]. by rewrite Htr.
Defined.

(** ** Failure modes of the folder tools *)

Section FolderToolFacts.
Context {W : Type} {B : KVBackend W}.

Lemma FOLDER_BINDING_MAP_bindings_own (folder : string) (m : FolderMapping) :
  record_get FOLDER_BINDING_MAP folder = Some m → binding m ∉ Object_prototype.
Proof.
  intros Hin%record_get_elem.
  assert (Hall : Forall (λ e : string * FolderMapping, binding e.2 ∉ Object_prototype)
                        FOLDER_BINDING_MAP) by by_table.
  rewrite Forall_forall in Hall. apply (Hall _ Hin).
Qed.

(** The receivers of the store calls of the folder tools are stores or
    [undefined], never members of [Object.prototype]. *)
Lemma email_store_receivers (env : Env) (folder member : string) :
  env_get env (property_key (field binding (record_read FOLDER_BINDING_MAP folder)))
    ≠ Inherited member ∧
  env_get env "EMAIL_BODIES" ≠ Inherited member.
Proof.
  assert (Hkey : ∀ k, k ∉ Object_prototype → env_get env k ≠ Inherited member).
  { intros k Hk%inherited_not_elem. unfold env_get, property.
    destruct (env !! k); [done|]. by rewrite Hk. }
  split; [|apply Hkey, EMAIL_BODIES_own].
  apply Hkey. unfold record_read, property.
  destruct (record_get FOLDER_BINDING_MAP folder) as [m|] eqn:Hm.
  - apply (FOLDER_BINDING_MAP_bindings_own _ _ Hm).
  - destruct (inherited folder); apply undefined_own.
Qed.

(** X7.  [email_folder_stats] never reports a count it could not take.
    For a folder without entry in [FOLDER_BINDING_MAP] it returns the
    not-mapped error result without a store call, unless the folder is the
    name of a member of [Object.prototype]: the guard then lets it pass
    and, no store being bound under the key [undefined], the call throws a
    [TypeError], also without a store call.  For a mapped folder it
    throws, without a store call, when no store is bound under the
    folder's binding; and it throws the store's fault when the first
    [list] call is rejected.  In the same unbound case [email_store]
    throws before any write. *)
Theorem folder_tools_failures (env : Env) (folder : string) (fuel : nat)
    (r : Run W) :
  (record_get FOLDER_BINDING_MAP folder = None →
   folder ∉ Object_prototype →
   email_folder_stats fuel env folder r = (Fulfilled (stats_not_mapped folder), r) ∧
   isError (stats_not_mapped folder) = true) ∧
  (record_get FOLDER_BINDING_MAP folder = None →
   folder ∈ Object_prototype →
   env !! "undefined" = None →
   email_folder_stats (S fuel) env folder r
     = (Rejected (undefined_receiver "list"), r)) ∧
  (∀ mapping,
     record_get FOLDER_BINDING_MAP folder = Some mapping →
     env !! binding mapping = None →
     email_folder_stats (S fuel) env folder r
       = (Rejected (undefined_receiver "list"), r) ∧
     ∀ key metadata body_key body,
       email_store env folder key metadata body_key body r
         = (Rejected (undefined_receiver "put"), r)) ∧
  (∀ mapping kv e w',
     record_get FOLDER_BINDING_MAP folder = Some mapping →
     env !! binding mapping = Some kv →
     kv_list kv (list_request (Some "email:") None) (world r) = (Rejected e, w') →
     email_folder_stats (S fuel) env folder r
       = (Rejected e,
          mkRun w' (trace r ++ [EvList kv (list_request (Some "email:") None)
                                  (Rejected e)]))).
Proof.
  split; [|split; [|split]].
  - intros Hmap Hown. by rewrite (email_folder_stats_unmapped _ _ _ _ Hmap Hown).
  - intros Hmap Hin Hnone. rewrite (email_folder_stats_inherited _ _ _ _ Hmap Hin).
    by rewrite (env_get_unbound _ _ Hnone undefined_own).
  - intros mapping Hmap Hnone.
    pose proof (env_get_unbound _ _ Hnone (FOLDER_BINDING_MAP_bindings_own _ _ Hmap))
      as Hkv.
    split.
    + by rewrite (email_folder_stats_mapped _ _ _ _ _ Hmap), Hkv.
    + intros key metadata body_key body. unfold email_store.
      rewrite (record_read_own _ _ _ Hmap).
      cbn [is_defined negb field property_key from_option id]. by rewrite Hkv.
  - intros mapping kv e w' Hmap Hkv Hlist.
    rewrite (email_folder_stats_mapped _ _ _ _ _ Hmap), (env_get_bound _ _ _ Hkv).
    unfold bind, listAllKeys.
    rewrite listAllKeys_loop_step, Hlist. done.
Qed.

(** X8.  [listAllKeys] takes a page that is not complete but carries no
    truthy cursor (none, or the empty string) for the last one: it
    returns the keys gathered up to that page as the full listing, after
    that one call and without a fault. *)
Theorem listAllKeys_stops_on_falsy_cursor (fuel : nat) (kv : KVNamespace)
    (pfx : option string) (r : Run W) (page : ListResult) (w' : W) :
  kv_list kv (list_request pfx None) (world r) = (Fulfilled page, w') →
  list_complete page = false →
  truthy_opt (cursor page) = false →
  listAllKeys (S fuel) (Own kv) pfx r
    = (Fulfilled (keys page),
       mkRun w' (trace r ++ [EvList kv (list_request pfx None) (Fulfilled page)])).
Proof.
  intros Hlist Hincomplete Hfalsy. unfold listAllKeys.
  rewrite listAllKeys_loop_step, Hlist. cbv beta iota zeta.
  unfold next_cursor. rewrite Hincomplete, Hfalsy. done.
Qed.

End FolderToolFacts.

Lemma folder_tools_failures_witness :
  email_folder_stats 3 sample_env "INBOX/Spam" (mkRun (sample_world healthy) [])
    = (Fulfilled (stats_not_mapped "INBOX/Spam"), mkRun (sample_world healthy) []) ∧
  email_folder_stats 3 sample_env "toString" (mkRun (sample_world healthy) [])
    = (Rejected (undefined_receiver "list"), mkRun (sample_world healthy) []) ∧
  email_folder_stats 3 sample_env "Labels/Veena" (mkRun (sample_world healthy) [])
    = (Rejected (undefined_receiver "list"), mkRun (sample_world healthy) []) ∧
  (email_folder_stats 3 fleet_env "INBOX/Complaints/HMCTS" (mkRun fleet_world [])).1
    = Rejected unavailable.
Proof.
  split; [|split; [|split]].
  - destruct (folder_tools_failures (B := MemKV.backend) sample_env "INBOX/Spam" 3
                (mkRun (sample_world healthy) [])) as (Hunmapped & _).
    destruct Hunmapped as [Hrun _]; [reflexivity|by_table|exact Hrun].
  - destruct (folder_tools_failures (B := MemKV.backend) sample_env "toString" 2
                (mkRun (sample_world healthy) [])) as (_ & Hproto & _).
    apply Hproto; [reflexivity|by_table|reflexivity].
  - destruct (folder_tools_failures (B := MemKV.backend) sample_env "Labels/Veena" 2
                (mkRun (sample_world healthy) [])) as (_ & _ & Hunbound & _).
    destruct (Hunbound (mkFolderMapping "KV_BARRISTERS" "Pro Bono Barristers"))
      as [Hrun _]; [reflexivity|reflexivity|exact Hrun].
  - destruct (folder_tools_failures (B := MemKV.backend) fleet_env
                "INBOX/Complaints/HMCTS" 2 (mkRun fleet_world [])) as (_ & _ & _ & Hfail).
    rewrite (Hfail (mkFolderMapping "KV_HMCTS" "HMCTS Complaints") 4 unavailable
               fleet_world); reflexivity.
Defined.

Lemma listAllKeys_stops_on_falsy_cursor_witness :
  listAllKeys (B := Truncating.backend) 5 (Own 1) None (mkRun () [])
    = (Fulfilled ["a"],
       mkRun () [EvList 1 (list_request None None)
                   (Fulfilled (mkListResult ["a"] false (Some "")))]).
Proof.
  apply (listAllKeys_stops_on_falsy_cursor (B := Truncating.backend) 4 1 None
           (mkRun () []) (mkListResult ["a"] false (Some "")) ());
    reflexivity.
Defined.

(** ** Counting on the reference backend *)

Lemma matching_insert_fresh (pfx : option string) (st : gmap string Entry)
    (k : string) (e : Entry) :
  st !! k = None → has_prefix pfx k = true →
  matching pfx (<[k := e]> st) ≡ₚ k :: matching pfx st.
Proof.
  intros Hfresh Hpfx. apply NoDup_Permutation.
  - apply matching_NoDup.
  - apply NoDup_cons. split; [|apply matching_NoDup].
    rewrite elem_of_matching, Hfresh. intros [[? ?] _]. done.
  - intros x. rewrite elem_of_cons, !elem_of_matching.
    destruct (decide (x = k)) as [->|Hne].
    + rewrite lookup_insert_eq. split; [by left|]. intros _. split; [by eexists|done].
    + rewrite lookup_insert_ne by done. split; [by right|]. by intros [?|?].
Qed.

Lemma matching_insert_same (pfx : option string) (st : gmap string Entry)
    (k : string) (e : Entry) :
  is_Some (st !! k) ∨ has_prefix pfx k = false →
  matching pfx (<[k := e]> st) ≡ₚ matching pfx st.
Proof.
  intros Hsame. apply NoDup_Permutation; [apply matching_NoDup..|].
  intros x. rewrite !elem_of_matching.
  destruct (decide (x = k)) as [->|Hne].
  - rewrite lookup_insert_eq. destruct Hsame as [Hk|Hk].
    + split; intros [_ ?]; (split; [by eauto|done]).
    + rewrite Hk. split; intros [_ ?]; done.
  - by rewrite lookup_insert_ne.
Qed.

Lemma matching_insert_length (pfx : option string) (st : gmap string Entry)
    (k : string) (e : Entry) :
  length (matching pfx (<[k := e]> st))
    = length (matching pfx st)
      + (if bool_decide (st !! k = None) && has_prefix pfx k then 1 else 0).
Proof.
  destruct (st !! k) as [e'|] eqn:Hk.
  - rewrite bool_decide_eq_false_2 by done. simpl.
    rewrite (matching_insert_same pfx st k e); [lia|]. left. by rewrite Hk.
  - rewrite bool_decide_eq_true_2 by done. simpl.
    destruct (has_prefix pfx k) eqn:Hpfx.
    + rewrite (matching_insert_fresh pfx st k e Hk Hpfx). simpl. lia.
    + rewrite (matching_insert_same pfx st k e); [lia|]. by right.
Qed.

Lemma pages_le_keys (n p : nat) : 0 < p → Nat.max 1 (ceil_div n p) ≤ Nat.max 1 n.
Proof.
  intros Hp. unfold ceil_div. destruct n as [|n].
  - rewrite Nat.add_0_l. assert ((p - 1) / p < 1); [|lia].
    apply Nat.Div0.div_lt_upper_bound. lia.
  - assert ((S n + p - 1) / p < S (S n)); [|lia].
    apply Nat.Div0.div_lt_upper_bound. nia.
Qed.

Lemma listAllKeys_mem_fuel (fuel : nat) (w : World) (kv : KVNamespace)
    (pfx : option string) (tr : list Event) :
  failing w (OpList kv) = false →
  0 < page_max w →
  Nat.max 1 (length (matching pfx (store_of w kv))) ≤ fuel →
  (listAllKeys fuel (Own kv) pfx (mkRun w tr)).1
    = Fulfilled (matching pfx (store_of w kv)).
Proof.
  intros Hok Hpage Hfuel.
  apply (listAllKeys_mem fuel w kv pfx tr Hok); [lia|].
  etransitivity; [apply pages_le_keys; lia|done].
Qed.

Lemma email_folder_stats_mem (fuel : nat) (env : Env) (folder : string)
    (mapping : FolderMapping) (kv : KVNamespace) (w : World) (tr : list Event) :
  record_get FOLDER_BINDING_MAP folder = Some mapping →
  env !! binding mapping = Some kv →
  failing w (OpList kv) = false →
  0 < page_max w →
  Nat.max 1 (length (matching (Some "email:") (store_of w kv))) ≤ fuel →
  (email_folder_stats fuel env folder (mkRun w tr)).1
    = Fulfilled (stats_result folder mapping
                   (length (matching (Some "email:") (store_of w kv)))).
Proof.
  intros Hmap Hkv Hok Hpage Hfuel.
  rewrite (email_folder_stats_mapped _ _ _ _ _ Hmap), (env_get_bound _ _ _ Hkv).
  unfold bind.
  pose proof (listAllKeys_mem_fuel fuel w kv (Some "email:") tr Hok Hpage Hfuel) as Hout.
  destruct (listAllKeys fuel (Own kv) (Some "email:") (mkRun w tr)) as [out r'].
  simpl in Hout. by rewrite Hout.
Qed.

(** X9.  The split write against the folder statistics: when the bodies
    store is not the folder's store and all stores are healthy, a
    successful [email_store] raises the [emailCount] that
    [email_folder_stats] reports for the folder by one exactly when the
    metadata key is new to the folder's store and starts with [email:];
    a metadata key without that prefix, or one that was already stored,
    leaves the count as it was. *)
Theorem email_store_then_stats (fuel : nat) (env : Env)
    (folder key metadata body_key body : string) (mapping : FolderMapping)
    (fkv bkv : KVNamespace) (w : World) (tr : list Event) :
  record_get FOLDER_BINDING_MAP folder = Some mapping →
  env !! binding mapping = Some fkv →
  env !! "EMAIL_BODIES" = Some bkv →
  fkv ≠ bkv →
  (∀ op, failing w op = false) →
  0 < page_max w →
  let before := length (matching (Some "email:") (store_of w fkv)) in
  before + 1 ≤ fuel →
  let stored := email_store env folder key metadata body_key body (mkRun w tr) in
  (email_folder_stats fuel env folder (mkRun w tr)).1
    = Fulfilled (stats_result folder mapping before) ∧
  (email_folder_stats fuel env folder stored.2).1
    = Fulfilled
        (stats_result folder mapping
           (before + (if bool_decide (store_of w fkv !! key = None)
                         && String.prefix "email:" key
                      then 1 else 0))).
Proof.
  intros Hmap Hf Hb Hne Hok Hpage before Hfuel stored. split.
  - apply (email_folder_stats_mem fuel env folder mapping fkv w tr Hmap Hf (Hok _) Hpage).
    fold before. lia.
  - unfold stored.
    rewrite (email_store_mem env folder key metadata body_key body mapping fkv bkv w tr
               Hmap Hf Hb (Hok _) (Hok _)).
    cbn [snd].
    set (m1 := folder_put_metadata folder body_key (clock w)).
    set (m2 := body_put_metadata folder mapping (clock w)).
    assert (Hstore : store_of (world_with (world_with w fkv key metadata m1)
                                          bkv body_key body m2) fkv
                     = <[key := mkEntry metadata m1]> (store_of w fkv)).
    { rewrite store_of_world_with, decide_False by done.
      by rewrite store_of_world_with, decide_True. }
    pose proof (matching_insert_length (Some "email:") (store_of w fkv) key
                  (mkEntry metadata m1)) as Hlen.
    cbn [has_prefix] in Hlen. fold before in Hlen.
    rewrite (email_folder_stats_mem fuel env folder mapping fkv
               (world_with (world_with w fkv key metadata m1) bkv body_key body m2)
               (tr ++ [ EvPut fkv key metadata m1 (Fulfilled ());
                        EvPut bkv body_key body m2 (Fulfilled ()) ])
               Hmap Hf (Hok _) Hpage).
    + by rewrite Hstore, Hlen.
    + rewrite Hstore, Hlen. destruct (_ && _); lia.
Qed.

Lemma email_store_then_stats_witness :
  let stored := email_store sample_env "Labels/Liu" "email:3" "{}" "body-3" "Hello"
                  (mkRun liu_world []) in
  let ignored := email_store sample_env "Labels/Liu" "draft:3" "{}" "body-3" "Hello"
                   (mkRun liu_world []) in
  (email_folder_stats 3 sample_env "Labels/Liu" stored.2).1
    = Fulfilled (stats_result "Labels/Liu" (mkFolderMapping "KV_LIU" "Liu Litigation") 3) ∧
  (email_folder_stats 3 sample_env "Labels/Liu" ignored.2).1
    = Fulfilled (stats_result "Labels/Liu" (mkFolderMapping "KV_LIU" "Liu Litigation") 2).
Proof.
  assert (Hne : 1 ≠ 2) by discriminate.
  assert (Hpage : 0 < page_max liu_world) by (vm_compute; lia).
  assert (Hfuel : length (matching (Some "email:") (store_of liu_world 1)) + 1 ≤ 3)
    by (vm_compute; lia).
  split.
  - exact (proj2 (email_store_then_stats 3 sample_env "Labels/Liu" "email:3" "{}"
                    "body-3" "Hello" (mkFolderMapping "KV_LIU" "Liu Litigation") 1 2
                    liu_world [] eq_refl eq_refl eq_refl Hne (λ _, eq_refl) Hpage Hfuel)).
  - exact (proj2 (email_store_then_stats 3 sample_env "Labels/Liu" "draft:3" "{}"
                    "body-3" "Hello" (mkFolderMapping "KV_LIU" "Liu Litigation") 1 2
                    liu_world [] eq_refl eq_refl eq_refl Hne (λ _, eq_refl) Hpage Hfuel)).
Defined.

(** X10.  [kv_keys_count] on a healthy store reports the number of keys
    that match the prefix, each key once; without a prefix, or with the
    empty prefix (which it reports as [null]), that is the number of keys
    of the store.  For a namespace [resolveKV] rejects, it throws that
    error without a store call. *)
Theorem kv_keys_count_exact (fuel : nat) (env : Env) (namespace : string)
    (pfx : option string) (w : World) (tr : list Event) :
  (∀ kv,
     resolveKV env namespace = inr (Own kv) →
     failing w (OpList kv) = false →
     0 < page_max w →
     Nat.max 1 (length (matching pfx (store_of w kv))) ≤ fuel →
     (kv_keys_count fuel env namespace pfx (mkRun w tr)).1
       = Fulfilled (count_result (length (matching pfx (store_of w kv))) pfx) ∧
     NoDup (matching pfx (store_of w kv)) ∧
     (truthy_opt pfx = false →
      length (matching pfx (store_of w kv)) = size (store_of w kv))) ∧
  (∀ e,
     resolveKV env namespace = inl e →
     kv_keys_count fuel env namespace pfx (mkRun w tr) = (Rejected e, mkRun w tr)).
Proof.
  split.
  - intros kv Hres Hok Hpage Hfuel. split; [|split; [apply matching_NoDup|]].
    + unfold kv_keys_count, bind, sync, ret. rewrite Hres.
      pose proof (listAllKeys_mem_fuel fuel w kv pfx tr Hok Hpage Hfuel) as Hout.
      destruct (listAllKeys fuel (Own kv) pfx (mkRun w tr)) as [out r'].
      simpl in Hout. by rewrite Hout.
    + intros Hfalsy. rewrite <- length_key_names. f_equal.
      unfold matching. destruct pfx as [[|c p]|]; [|done|].
      * induction (key_names (store_of w kv)) as [|k ks IH]; [done|].
        rewrite filter_cons_True by by destruct k. by rewrite IH.
      * apply matching_None.
  - intros e Hres. unfold kv_keys_count, bind, sync. by rewrite Hres.
Qed.

Lemma kv_keys_count_exact_witness :
  (kv_keys_count 3 sample_env "liu" None (mkRun liu_world [])).1
    = Fulfilled (count_result 3 None) ∧
  (kv_keys_count 3 sample_env "liu" (Some "email:") (mkRun liu_world [])).1
    = Fulfilled (count_result 2 (Some "email:")) ∧
  (kv_keys_count 3 sample_env "nowhere" None (mkRun liu_world [])).1
    = Rejected (UnknownNamespace (unknown_namespace_message "nowhere")).
Proof.
  destruct (kv_keys_count_exact 3 sample_env "liu" None liu_world []) as [Hall _].
  destruct (kv_keys_count_exact 3 sample_env "liu" (Some "email:") liu_world [])
    as [Hemail _].
  destruct (kv_keys_count_exact 3 sample_env "nowhere" None liu_world [])
    as [_ Hunknown].
  split; [|split].
  - destruct (Hall 1) as (Hout & _); [reflexivity|reflexivity|vm_compute; lia
                                      |vm_compute; lia|exact Hout].
  - destruct (Hemail 1) as (Hout & _); [reflexivity|reflexivity|vm_compute; lia
                                        |vm_compute; lia|exact Hout].
  - by rewrite (Hunknown _ eq_refl).
Defined.

(** ** More on the bulk read *)

Section BulkReadFacts.
Context {W : Type} {B : KVBackend W}.

(** X11.  The store reads of the bulk get: none at all when more than 100
    keys are passed (the arguments are refused, whatever the namespace) or
    when [resolveKV] rejects the namespace; for a namespace that
    [resolveKV] resolves to a store, exactly one read per requested key,
    in the order of the keys, all of them issued whether or not an earlier
    one fails. *)
Theorem kv_keys_bulk_get_reads (picks : list nat) (env : Env) (namespace : string)
    (ks : list string) (r : Run W) :
  (100 < length ks →
   kv_keys_bulk_get_tool picks env namespace ks r
     = (Rejected (InvalidParams "Array must contain at most 100 element(s)"), r)) ∧
  (∀ e, length ks ≤ 100 → resolveKV env namespace = inl e →
        kv_keys_bulk_get_tool picks env namespace ks r = (Rejected e, r)) ∧
  (∀ kv, length ks ≤ 100 → resolveKV env namespace = inr (Own kv) →
         let reads := (spawn_reads (Own kv) ks r).1 in
         reads.*1 = ks ∧
         trace (kv_keys_bulk_get_tool picks env namespace ks r).2
           = trace r ++ map (read_event kv) reads).
Proof.
  split; [|split].
  - intros Hmany. unfold kv_keys_bulk_get_tool.
    by replace (100 <? length ks) with true by (symmetry; apply Nat.ltb_lt; lia).
  - intros e Hmax Hres. unfold kv_keys_bulk_get_tool, kv_keys_bulk_get.
    replace (100 <? length ks) with false by (symmetry; apply Nat.ltb_ge; lia).
    unfold bind, sync. by rewrite Hres.
  - intros kv Hmax Hres reads. split; [apply spawn_reads_keys|].
    rewrite (kv_keys_bulk_get_tool_state picks env namespace ks kv r Hmax Hres).
    apply spawn_reads_trace.
Qed.

(** X12.  The properties of the object the bulk get returns when every
    read is fulfilled, in whatever order the reads complete.  Every
    requested key other than [__proto__] is a property, once, however
    often it was requested, and no key that was not requested is one.
    The key [__proto__] is special: requested once it is never a
    property of the result, whatever the store holds under it; it becomes
    one only when it is requested at least twice and a read of it
    returned [null]. *)
Theorem kv_keys_bulk_get_result_keys (picks : list nat) (env : Env)
    (namespace : string) (ks : list string) (kv : KVNamespace) (r : Run W) :
  length ks ≤ 100 →
  resolveKV env namespace = inr (Own kv) →
  Forall read_fulfilled (spawn_reads (Own kv) ks r).1 →
  ∃ results : gmap string (option string),
    (kv_keys_bulk_get_tool picks env namespace ks r).1
      = Fulfilled (mkToolResult (JsonText (JDict (json_of_value <$> results))) false) ∧
    (∀ k, k ≠ "__proto__" → (k ∈ dom results ↔ k ∈ ks)) ∧
    (∀ k, k ∈ dom results → k ∈ ks) ∧
    ("__proto__" ∈ dom results →
     2 ≤ requests "__proto__" ks ∧
     ("__proto__", Fulfilled None) ∈ (spawn_reads (Own kv) ks r).1).
Proof.
  intros Hmax Hres Hall.
  destruct (promise_all_reads_fulfilled picks _ Hall)
    as (results & Hp & Hin & Hout & Hproto).
  rewrite spawn_reads_keys in Hin, Hout, Hproto.
  assert (Hsub : ∀ k, k ∈ dom (own_props results) → k ∈ ks).
  { intros k Hk. destruct (decide (k ∈ ks)) as [|Hnot]; [done|].
    apply elem_of_dom in Hk. rewrite (Hout k Hnot) in Hk. by destruct Hk. }
  exists (own_props results). split; [|split; [|split]].
  - by rewrite (kv_keys_bulk_get_tool_run picks env namespace ks kv r Hmax Hres), Hp.
  - intros k Hk. split; [apply Hsub|].
    intros Hreq. destruct (Hin k Hk Hreq) as (v & Hv & _).
    apply elem_of_dom. by exists v.
  - exact Hsub.
  - intros Hdom. apply Hproto. by apply elem_of_dom.
Qed.

End BulkReadFacts.

Lemma kv_keys_bulk_get_reads_witness :
  length (trace (kv_keys_bulk_get_tool [] sample_env "liu" ["b"; "a"]
                   (mkRun (bulk_world read_b_down) [])).2) = 2 ∧
  kv_keys_bulk_get_tool [] sample_env "liu" (replicate 101 "a")
    (mkRun (bulk_world healthy) [])
    = (Rejected (InvalidParams "Array must contain at most 100 element(s)"),
       mkRun (bulk_world healthy) []).
Proof.
  destruct (kv_keys_bulk_get_reads (B := MemKV.backend) [] sample_env "liu" ["b"; "a"]
              (mkRun (bulk_world read_b_down) [])) as (_ & _ & Hreads).
  destruct (kv_keys_bulk_get_reads (B := MemKV.backend) [] sample_env "liu"
              (replicate 101 "a") (mkRun (bulk_world healthy) [])) as (Hmany & _).
  split.
  - destruct (Hreads 1) as [_ Htr]; [simpl; lia|reflexivity|]. by rewrite Htr.
  - apply Hmany. rewrite length_replicate. lia.
Defined.

Lemma kv_keys_bulk_get_result_keys_witness :
  ∃ results : gmap string (option string),
    (kv_keys_bulk_get_tool [2; 0] sample_env "liu" ["a"; "__proto__"; "a"]
       (mkRun (bulk_world healthy) [])).1
      = Fulfilled (mkToolResult (JsonText (JDict (json_of_value <$> results))) false) ∧
    "a" ∈ dom results ∧
    ("zz" ∉ dom results) ∧
    ("__proto__" ∉ dom results).
Proof.
  destruct (kv_keys_bulk_get_result_keys (B := MemKV.backend) [2; 0] sample_env "liu"
              ["a"; "__proto__"; "a"] 1 (mkRun (bulk_world healthy) []))
    as (results & Hout & Hkeys & Hsub & Hproto).
  - simpl. lia.
  - reflexivity.
  - repeat constructor; eexists; reflexivity.
  - exists results. split; [exact Hout|]. split; [|split].
    + apply Hkeys; [discriminate|]. apply list_elem_of_here.
    + intros Hzz. apply Hsub in Hzz. revert Hzz. by_table.
    + intros Hp. destruct (Hproto Hp) as [Hreq _]. vm_compute in Hreq. lia.
Defined.

Lemma spawn_reads_mem (kv : KVNamespace) (ks : list string) (w : World)
    (tr : list Event) :
  (∀ k, failing w (OpGet kv k) = false) →
  (spawn_reads (Own kv) ks (mkRun w tr)).1
    = map (λ k, (k, Fulfilled (value <$> store_of w kv !! k))) ks.
Proof.
  intros Hok. revert tr. induction ks as [|key ks IH]; intros tr; [done|].
  cbn [spawn_reads await_get world trace].
  change (kv_get kv key w) with (get_value kv key w). unfold get_value.
  rewrite Hok. specialize (IH (tr ++ [EvGet kv key (Fulfilled (value <$> store_of w kv !! key))])).
  destruct (spawn_reads (Own kv) ks _) as [rest r2]. cbn [fst] in *.
  by rewrite IH.
Qed.

(** X13.  The bulk get against the single get, on a store whose reads
    succeed.  For every requested key other than [__proto__] the entry is
    the value stored under that key, and [null] exactly when [kv_key_get]
    answers its not-found result.  A value stored under the key
    [__proto__] is returned by [kv_key_get] but never by the bulk get:
    the result has no entry for it. *)
Theorem kv_keys_bulk_get_matches_get (picks : list nat) (env : Env)
    (namespace : string) (ks : list string) (kv : KVNamespace) (w : World)
    (tr : list Event) :
  length ks ≤ 100 →
  resolveKV env namespace = inr (Own kv) →
  (∀ k, failing w (OpGet kv k) = false) →
  ∃ results : gmap string (option string),
    (kv_keys_bulk_get_tool picks env namespace ks (mkRun w tr)).1
      = Fulfilled (mkToolResult (JsonText (JDict (json_of_value <$> results))) false) ∧
    (∀ k, k ∈ ks → k ≠ "__proto__" →
       results !! k = Some (value <$> store_of w kv !! k) ∧
       (kv_key_get env namespace k (mkRun w tr)).1
         = Fulfilled (get_result k (store_of w kv !! k)) ∧
       (results !! k = Some None ↔
        (kv_key_get env namespace k (mkRun w tr)).1 = Fulfilled (key_not_found k))) ∧
    (∀ e, store_of w kv !! "__proto__" = Some e →
       results !! "__proto__" = None ∧
       (kv_key_get env namespace "__proto__" (mkRun w tr)).1
         = Fulfilled (mkToolResult (PlainText (value e)) false)).
Proof.
  intros Hmax Hres Hok.
  pose proof (spawn_reads_mem kv ks w tr Hok) as Hreads.
  assert (Hall : Forall read_fulfilled (spawn_reads (Own kv) ks (mkRun w tr)).1).
  { rewrite Hreads. apply Forall_forall. intros x (k & -> & _)%list_elem_of_fmap.
    by eexists. }
  destruct (promise_all_reads_fulfilled picks _ Hall)
    as (results & Hp & Hin & _ & Hproto).
  exists (own_props results). split; [|split].
  - by rewrite (kv_keys_bulk_get_tool_run (B := MemKV.backend) picks env namespace ks kv
                  (mkRun w tr) Hmax Hres), Hp.
  - intros k Hk Hne.
    assert (Hentry : own_props results !! k = Some (value <$> store_of w kv !! k)).
    { destruct (Hin k Hne) as (v & Hv & Hmem); [by rewrite spawn_reads_keys|].
      rewrite Hreads in Hmem.
      apply list_elem_of_fmap in Hmem as (k' & [= <- Hv'] & _). by rewrite Hv, Hv'. }
    rewrite (kv_key_get_mem env namespace k kv w tr Hres (Hok k)).
    split; [done|]. split; [done|]. rewrite Hentry.
    destruct (store_of w kv !! k) as [e|]; simpl; split; done.
  - intros e Hstored. split.
    + destruct (own_props results !! "__proto__") as [v|] eqn:Hv; [|done].
      destruct Hproto as [_ Hmem]; [by eexists|].
      rewrite Hreads in Hmem.
      apply list_elem_of_fmap in Hmem as (k' & [= <- Hnull] & _).
      rewrite Hstored in Hnull. discriminate.
    + rewrite (kv_key_get_mem env namespace "__proto__" kv w tr Hres (Hok _)).
      by rewrite Hstored.
Qed.

Lemma kv_keys_bulk_get_matches_get_witness :
  ∃ results : gmap string (option string),
    (kv_keys_bulk_get_tool [] sample_env "liu" ["a"; "zz"; "__proto__"]
       (mkRun proto_world [])).1
      = Fulfilled (mkToolResult (JsonText (JDict (json_of_value <$> results))) false) ∧
    results !! "a" = Some (Some "1") ∧
    results !! "zz" = Some None ∧
    results !! "__proto__" = None ∧
    (kv_key_get sample_env "liu" "__proto__" (mkRun proto_world [])).1
      = Fulfilled (mkToolResult (PlainText "p") false).
Proof.
  destruct (kv_keys_bulk_get_matches_get [] sample_env "liu" ["a"; "zz"; "__proto__"] 1
              proto_world [])
    as (results & Hout & Hin & Hproto).
  - simpl. lia.
  - reflexivity.
  - reflexivity.
  - exists results. split; [exact Hout|].
    destruct (Hin "a") as (Ha & _); [apply list_elem_of_here|discriminate|].
    destruct (Hin "zz") as (Hzz & _);
      [apply list_elem_of_further, list_elem_of_here|discriminate|].
    destruct (Hproto (mkEntry "p" [])) as [Hnone Hget]; [reflexivity|].
    split; [exact Ha|]. split; [exact Hzz|]. split; [exact Hnone|exact Hget].
Defined.

(** ** More on the health scan *)

Section ScanFacts.
Context {W : Type} {B : KVBackend W}.

Lemma probe_namespace_trace (env : Env) (name bindingKey : string)
    (stats : gmap string Z) (r : Run W) :
  ∃ evs, trace (probe_namespace env name bindingKey stats r).2 = trace r ++ evs ∧
         Forall is_probe evs ∧ length evs ≤ 1.
Proof.
  unfold probe_namespace, try_catch, bind, ret.
  destruct (env_get env bindingKey) as [kv| |]; cbn [await_list throw].
  - destruct (kv_list kv _ (world r)) as [res w'] eqn:Hlist.
    exists [EvList kv (mkListOptions None None (Some 1)) res].
    split; [by destruct res|]. split; [|simpl; lia].
    apply Forall_singleton. by exists kv, res.
  - exists []. rewrite app_nil_r. split; [done|]. split; [constructor|simpl; lia].
  - exists []. rewrite app_nil_r. split; [done|]. split; [constructor|simpl; lia].
Qed.

Lemma scan_namespaces_trace (env : Env) (entries : list (string * string))
    (stats : gmap string Z) (r : Run W) :
  ∃ evs, trace (scan_namespaces env entries stats r).2 = trace r ++ evs ∧
         Forall is_probe evs ∧
         length evs ≤ length (filter (λ name, skipped name = false) entries.*1).
Proof.
  revert stats r. induction entries as [|[name b] rest IH]; intros stats r.
  - exists []. simpl. rewrite app_nil_r. split; [done|]. split; [constructor|lia].
  - cbn [scan_namespaces]. fold (skipped name). rewrite fmap_cons. cbn [fst].
    destruct (skipped name) eqn:Hskip.
    + rewrite filter_cons_False by (by rewrite Hskip). apply IH.
    + rewrite filter_cons_True by done. unfold bind.
      destruct (probe_namespace_trace env name b stats r) as (evs1 & Htr1 & Hp1 & Hlen1).
      destruct (probe_namespace env name b stats r) as [[stats1| |] r1];
        cbn [snd] in Htr1.
      * destruct (IH stats1 r1) as (evs2 & Htr2 & Hp2 & Hlen2).
        exists (evs1 ++ evs2). rewrite Htr2, Htr1, app_assoc.
        split; [done|]. split; [by apply Forall_app|].
        rewrite length_app. simpl. lia.
      * exists evs1. cbn [snd]. split; [done|]. split; [done|]. simpl. lia.
      * exists evs1. cbn [snd]. split; [done|]. split; [done|]. simpl. lia.
Qed.

(** X14.  The health scan is a cheap probe on every backend: the store
    calls of [pipeline_status] are [list] calls with [limit: 1], no prefix
    and no cursor, at most one for each of the 20 namespaces it reports
    on; it never pages through a store and never reads or writes a key. *)
Theorem pipeline_status_probes (env : Env) (r : Run W) :
  ∃ evs, trace (pipeline_status env r).2 = trace r ++ evs ∧
         Forall is_probe evs ∧
         length evs ≤ 20.
Proof.
  destruct (scan_namespaces_trace env (Object_entries NAMESPACE_MAP) ∅ r)
    as (evs & Htr & Hp & Hlen).
  exists evs. split; [|split; [done|exact Hlen]].
  unfold pipeline_status, bind, ret.
  by destruct (scan_namespaces env _ ∅ r) as [[stats| |] r'].
Qed.

Lemma probe_namespace_dom (env : Env) (name bindingKey : string)
    (stats stats' : gmap string Z) (r : Run W) :
  (probe_namespace env name bindingKey stats r).1 = Fulfilled stats' →
  dom stats' = {[ name ]} ∪ dom stats.
Proof.
  unfold probe_namespace, try_catch, bind, ret.
  destruct (await_list _ _ r) as [[page| |] r']; cbn [fst]; intros [= <-].
  - destruct (negb (list_complete page)); rewrite !dom_insert_L; [|done].
    apply set_eq. intros x. rewrite !elem_of_union. tauto.
  - by rewrite dom_insert_L.
Qed.

Lemma scan_namespaces_dom (env : Env) (entries : list (string * string))
    (stats stats' : gmap string Z) (r : Run W) :
  (scan_namespaces env entries stats r).1 = Fulfilled stats' →
  dom stats'
    = dom stats ∪ list_to_set (filter (λ name, skipped name = false) entries.*1).
Proof.
  revert stats r. induction entries as [|[name b] rest IH]; intros stats r.
  - intros [= <-]. apply set_eq. intros x. rewrite elem_of_union, elem_of_list_to_set.
    split; [by left|]. intros [?|Hx]; [done|]. by apply elem_of_nil in Hx.
  - cbn [scan_namespaces]. fold (skipped name). rewrite fmap_cons. cbn [fst].
    destruct (skipped name) eqn:Hskip.
    + rewrite filter_cons_False by (by rewrite Hskip). apply IH.
    + rewrite filter_cons_True by done. unfold bind.
      pose proof (λ s, probe_namespace_dom env name b stats s r) as Hprobe.
      destruct (probe_namespace env name b stats r) as [[stats1| |] r1];
        cbn [fst] in *; [|done|done].
      intros Hscan. rewrite (IH _ _ Hscan), (Hprobe stats1 eq_refl).
      rewrite list_to_set_cons. apply set_eq. intros x. rewrite !elem_of_union. tauto.
Qed.

(** A probe settles unless its [list] call does not: when it is pending,
    that call is the last one issued. *)
Lemma probe_namespace_settles (env : Env) (name bindingKey : string)
    (stats : gmap string Z) (r : Run W) :
  (∃ stats' r', probe_namespace env name bindingKey stats r = (Fulfilled stats', r')) ∨
  (∃ kv w',
     kv_list kv (mkListOptions None None (Some 1)) (world r) = (Pending, w') ∧
     probe_namespace env name bindingKey stats r
       = (Pending,
          mkRun w' (trace r ++ [EvList kv (mkListOptions None None (Some 1)) Pending]))).
Proof.
  unfold probe_namespace, try_catch, bind, ret.
  destruct (env_get env bindingKey) as [kv| |]; cbn [await_list throw].
  - destruct (kv_list kv _ (world r)) as [[page| |] w'] eqn:Hlist.
    + left. by eexists _, _.
    + left. by eexists _, _.
    + right. by exists kv, w'.
  - left. by eexists _, _.
  - left. by eexists _, _.
Qed.

Lemma scan_namespaces_settles (env : Env) (entries : list (string * string))
    (stats : gmap string Z) (r : Run W) :
  (∃ stats' r', scan_namespaces env entries stats r = (Fulfilled stats', r')) ∨
  (∃ evs kv w w',
     kv_list kv (mkListOptions None None (Some 1)) w = (Pending, w') ∧
     (scan_namespaces env entries stats r).1 = Pending ∧
     trace (scan_namespaces env entries stats r).2
       = trace r ++ evs ++ [EvList kv (mkListOptions None None (Some 1)) Pending]).
Proof.
  revert stats r. induction entries as [|[name b] rest IH]; intros stats r.
  - left. by eexists _, _.
  - cbn [scan_namespaces]. destruct (_ || _); [apply IH|]. unfold bind.
    destruct (probe_namespace_trace env name b stats r) as (evs1 & Htr1 & _).
    destruct (probe_namespace_settles env name b stats r)
      as [(stats1 & r1 & Hprobe)|(kv & w' & Hlist & Hprobe)]; rewrite Hprobe in *.
    + cbn [snd] in Htr1.
      destruct (IH stats1 r1) as [Hdone|(evs & kv & w & w' & Hlist & Hout & Htr)];
        [by left|right].
      exists (evs1 ++ evs), kv, w, w'. split; [done|]. split; [done|].
      by rewrite Htr, Htr1, <- !app_assoc.
    + right. exists [], kv, (world r), w'. by split.
Qed.

(** X15.  What the health scan reports on, on every backend.  Where
    every [list] call of the backend settles, [pipeline_status] returns,
    with a count for exactly the registered names other than
    ["bridge-accounts"]; that name, and any name outside the registry,
    has no entry.  It is left pending only by a probe whose [list] call
    never answers, and that call is then the last one it issued. *)
Theorem pipeline_status_reports_on (env : Env) (r : Run W) :
  ((∀ kv o w, (kv_list kv o w).1 ≠ Pending) →
   ∃ stats : gmap string Z,
     (pipeline_status env r).1
       = Fulfilled
           (mkToolResult
              (JsonText (JObj [ ("status", JStr "ok");
                                ("namespace_counts", JDict (JNum <$> stats));
                                ("note", JStr pipeline_status_note) ]))
              false) ∧
     dom stats = list_to_set scanned_names ∧
     stats !! "bridge-accounts" = None ∧
     length scanned_names = 20) ∧
  ((pipeline_status env r).1 = Pending →
   ∃ evs kv w w',
     kv_list kv (mkListOptions None None (Some 1)) w = (Pending, w') ∧
     trace (pipeline_status env r).2
       = trace r ++ evs ++ [EvList kv (mkListOptions None None (Some 1)) Pending]).
Proof.
  pose proof (λ s, scan_namespaces_dom env (Object_entries NAMESPACE_MAP) ∅ s r) as Hdom.
  pose proof (scan_namespaces_settles env (Object_entries NAMESPACE_MAP) ∅ r) as Hscan.
  unfold pipeline_status, bind, ret. split.
  - intros Hanswers.
    destruct Hscan as [(stats & r' & Hrun)|(evs & kv & w & w' & Hlist & _)].
    + rewrite Hrun in *. cbn [fst] in *. exists stats. split; [done|].
      specialize (Hdom stats eq_refl).
      assert (Hd : dom stats = list_to_set scanned_names).
      { rewrite Hdom, dom_empty_L. apply set_eq. intros x. rewrite elem_of_union.
        split; [|by right]. intros [Hx|Hx]; [|done]. by apply elem_of_empty in Hx. }
      split; [exact Hd|]. split; [|done].
      apply not_elem_of_dom. rewrite Hd, elem_of_list_to_set. by_table.
    + destruct (Hanswers kv (mkListOptions None None (Some 1)) w). by rewrite Hlist.
  - destruct Hscan as [(stats & r' & Hrun)|(evs & kv & w & w' & Hlist & Hout & Htr)].
    + by rewrite Hrun.
    + intros _. exists evs, kv, w, w'. split; [done|].
      destruct (scan_namespaces env _ ∅ r) as [[stats| |] r']; cbn [fst snd] in *;
        done.
Qed.

End ScanFacts.

Lemma memkv_list_answers (kv : KVNamespace) (o : ListOptions) (w : World) :
  (kv_list kv o w).1 ≠ Pending.
Proof.
  change (kv_list kv o w) with (list_page kv o w). unfold list_page.
  destruct (failing w (OpList kv)); [done|].
  by destruct (start_offset (opt_cursor o)).
Qed.

Lemma pipeline_status_reports_on_witness :
  ∃ stats : gmap string Z,
    (pipeline_status fleet_env (mkRun fleet_world [])).1
      = Fulfilled
          (mkToolResult
             (JsonText (JObj [ ("status", JStr "ok");
                               ("namespace_counts", JDict (JNum <$> stats));
                               ("note", JStr pipeline_status_note) ]))
             false) ∧
    dom stats = list_to_set scanned_names ∧
    stats !! "bridge-accounts" = None.
Proof.
  destruct (pipeline_status_reports_on (B := MemKV.backend) fleet_env
              (mkRun fleet_world [])) as [Hreturns _].
  destruct (Hreturns memkv_list_answers) as (stats & Hout & Hdom & Hbridge & _).
  exists stats. split; [exact Hout|]. split; [exact Hdom|exact Hbridge].
Defined.

(** ** Paging by hand *)

(** X16.  [kv_keys_list] on a healthy store, called with the cursor that
    stands for the first [off] keys (no cursor for [off = 0]), issues one
    [list] call with the prefix, the limit (100 when none is given) and
    that cursor, and returns the next keys of the listing, at most the
    limit and at most the store's page cap, with their count; it reports
    the page as complete exactly when no key is left after it, with the
    cursor [null], and otherwise hands out a cursor that stands for the
    keys served so far, so that the next call resumes right after this
    page. *)
Theorem kv_keys_list_next_page (env : Env) (namespace : string)
    (pfx : option string) (limit : option nat) (cur : option string) (off : nat)
    (kv : KVNamespace) (w : World) (tr : list Event) :
  resolveKV env namespace = inr (Own kv) →
  failing w (OpList kv) = false →
  start_offset cur = Some off →
  let o := mkListOptions pfx cur (Some (default 100 limit)) in
  let L := Nat.min (default 100 limit) (page_max w) in
  let ks := matching pfx (store_of w kv) in
  ∃ page : ListResult,
    kv_keys_list env namespace pfx limit cur (mkRun w tr)
      = (Fulfilled (keys_list_result page),
         mkRun w (tr ++ [EvList kv o (Fulfilled page)])) ∧
    keys page = take L (drop off ks) ∧
    (list_complete page = true ↔ length ks ≤ off + L) ∧
    (list_complete page = true → cursor_property page = [ ("cursor", JNull) ]) ∧
    (list_complete page = false →
     ∃ c, cursor_property page = [ ("cursor", JStr c) ] ∧
          start_offset (Some c) = Some (off + L)).
Proof.
  intros Hres Hok Hoff o L ks. exists (page_at w kv o off). split; [|split; [done|]].
  - unfold kv_keys_list, bind, sync, ret. rewrite Hres. cbn [await_list world trace].
    fold o. by rewrite (kv_list_mem w kv o off Hok Hoff).
  - unfold cursor_property, page_at. cbn [list_complete cursor].
    change (page_size w o) with L. change (matching (opt_prefix o) (store_of w kv)) with ks.
    destruct (length ks <=? off + L) eqn:Hlast.
    + apply Nat.leb_le in Hlast. by repeat split.
    + apply Nat.leb_gt in Hlast. split; [split; [done|lia]|]. split; [done|].
      intros _. exists (cursor_of (off + L)). split; [done|].
      apply offset_of_cursor_of.
Qed.

Lemma kv_keys_list_next_page_witness :
  ∃ first second : ListResult,
    (kv_keys_list sample_env "liu" None (Some 2) None (mkRun liu_world [])).1
      = Fulfilled (keys_list_result first) ∧
    (kv_keys_list sample_env "liu" None (Some 2) (Some "2") (mkRun liu_world [])).1
      = Fulfilled (keys_list_result second) ∧
    keys first ++ keys second = matching None (store_of liu_world 1) ∧
    list_complete first = false ∧ list_complete second = true.
Proof.
  destruct (kv_keys_list_next_page sample_env "liu" None (Some 2) None 0 1 liu_world [])
    as (first & Hrun1 & Hkeys1 & Hdone1 & _); [reflexivity..|].
  destruct (kv_keys_list_next_page sample_env "liu" None (Some 2) (Some "2") 2 1
              liu_world [])
    as (second & Hrun2 & Hkeys2 & Hdone2 & _); [reflexivity..|].
  exists first, second. split; [by rewrite Hrun1|]. split; [by rewrite Hrun2|].
  split; [by rewrite Hkeys1, Hkeys2|]. split.
  - destruct (list_complete first); [|done].
    assert (Hle : length (matching None (store_of liu_world 1)) ≤ 0 + Nat.min 2 2)
      by by apply Hdone1.
    vm_compute in Hle. lia.
  - apply Hdone2. vm_compute. lia.
Defined.

(** ** Folders that share a store *)

Section SharedStoreFacts.
Context {W : Type} {B : KVBackend W}.

(** X17.  Folders routed to the same binding share their statistics: on
    every backend, [email_folder_stats] issues the same store calls for
    the two folders and reports a count for one exactly when it reports
    that count for the other, so an email stored through one of them is
    counted under both. *)
Theorem shared_binding_shared_stats (fuel : nat) (env : Env)
    (folder1 folder2 : string) (m1 m2 : FolderMapping) (r : Run W) :
  record_get FOLDER_BINDING_MAP folder1 = Some m1 →
  record_get FOLDER_BINDING_MAP folder2 = Some m2 →
  binding m1 = binding m2 →
  (email_folder_stats fuel env folder1 r).2 = (email_folder_stats fuel env folder2 r).2 ∧
  ∀ n : nat,
    (email_folder_stats fuel env folder1 r).1 = Fulfilled (stats_result folder1 m1 n) ↔
    (email_folder_stats fuel env folder2 r).1 = Fulfilled (stats_result folder2 m2 n).
Proof.
  intros Hm1 Hm2 Hsame.
  rewrite (email_folder_stats_mapped _ _ _ _ _ Hm1), (email_folder_stats_mapped _ _ _ _ _ Hm2).
  rewrite Hsame. unfold bind, ret.
  destruct (listAllKeys fuel (env_get env (binding m2)) (Some "email:") r)
    as [[ks| |] r'];
    cbn [fst snd]; (split; [done|]); intros n; [|done|done].
  unfold stats_result. rewrite Hsame.
  split; intros [= Hn]; apply Nat2Z.inj in Hn; by rewrite Hn.
Qed.

End SharedStoreFacts.

Lemma shared_binding_shared_stats_witness :
  (email_folder_stats 2 sample_env "INBOX/MobiCycle Estonia/Liu" (mkRun liu_world [])).1
    = Fulfilled (stats_result "INBOX/MobiCycle Estonia/Liu"
                   (mkFolderMapping "KV_LIU" "Liu Litigation") 2).
Proof.
  destruct (shared_binding_shared_stats (B := MemKV.backend) 2 sample_env "Labels/Liu"
              "INBOX/MobiCycle Estonia/Liu"
              (mkFolderMapping "KV_LIU" "Liu Litigation")
              (mkFolderMapping "KV_LIU" "Liu Litigation") (mkRun liu_world [])
              eq_refl eq_refl eq_refl) as [_ Hiff].
  apply Hiff. reflexivity.
Defined.

(** ** Namespace names inherited from Object.prototype *)

Section InheritedNames.
Context {W : Type} {B : KVBackend W}.

Lemma spawn_reads_inherited (member : string) (ks : list string) (r : Run W) :
  spawn_reads (Inherited member) ks r
    = (map (λ k, (k, Rejected (not_a_function "get"))) ks, r).
Proof.
  induction ks as [|key ks IH]; [done|]. cbn [spawn_reads await_get throw].
  by rewrite IH.
Qed.

(** X18.  The KV tools on a namespace name that is the name of a member
    of [Object.prototype] and no binding of the environment: [resolveKV]
    lets the name pass, and the tool then throws a [TypeError] at its
    first store call, which is never issued.  [kv_key_get],
    [kv_keys_count], [kv_keys_list] and the bulk get with at least one
    key all fail so; the bulk get with no key at all returns the empty
    object. *)
Theorem inherited_namespace_type_error (picks : list nat) (env : Env)
    (namespace : string) (fuel : nat) (r : Run W) :
  env !! namespace = None →
  namespace ∈ Object_prototype →
  (∀ key, kv_key_get env namespace key r = (Rejected (not_a_function "get"), r)) ∧
  (∀ pfx, kv_keys_count (S fuel) env namespace pfx r
            = (Rejected (not_a_function "list"), r)) ∧
  (∀ pfx limit cur, kv_keys_list env namespace pfx limit cur r
                      = (Rejected (not_a_function "list"), r)) ∧
  (∀ ks, ks ≠ [] → length ks ≤ 100 →
         kv_keys_bulk_get_tool picks env namespace ks r
           = (Rejected (not_a_function "get"), r)) ∧
  kv_keys_bulk_get_tool picks env namespace [] r
    = (Fulfilled (mkToolResult (JsonText (JDict ∅)) false), r).
Proof.
  intros Hnone Hin. pose proof (resolveKV_inherited env namespace Hnone Hin) as Hres.
  split; [|split; [|split; [|split]]].
  - intros key. unfold kv_key_get, bind, sync, ret. by rewrite Hres.
  - intros pfx. unfold kv_keys_count, bind, sync, ret. by rewrite Hres.
  - intros pfx limit cur. unfold kv_keys_list, bind, sync, ret. by rewrite Hres.
  - intros ks Hks Hmax. unfold kv_keys_bulk_get_tool, kv_keys_bulk_get.
    replace (100 <? length ks) with false by (symmetry; apply Nat.ltb_ge; lia).
    unfold bind, sync, ret. rewrite Hres. cbn [throw]. rewrite spawn_reads_inherited.
    destruct (promise_all_reads_rejected picks
                (map (λ k, (k, Rejected (not_a_function "get"))) ks))
      as (e & k & -> & Hmem).
    + destruct ks as [|k ks]; [done|]. apply Exists_cons_hd. by eexists.
    + by apply list_elem_of_fmap in Hmem as (k' & [= _ ->] & _).
  - unfold kv_keys_bulk_get_tool, kv_keys_bulk_get. cbn [length Nat.ltb Nat.leb].
    unfold bind, sync, ret. rewrite Hres. cbn [spawn_reads].
    assert (Hp : promise_all_reads picks [] empty_results = Fulfilled empty_results)
      by reflexivity.
    rewrite Hp. unfold empty_results. cbn [own_props]. by rewrite fmap_empty.
Qed.

End InheritedNames.

Lemma inherited_namespace_type_error_witness :
  let r := mkRun (bulk_world healthy) [] in
  kv_key_get sample_env "constructor" "a" r = (Rejected (not_a_function "get"), r) ∧
  kv_keys_count 1 sample_env "toString" None r
    = (Rejected (not_a_function "list"), r) ∧
  kv_keys_bulk_get_tool [] sample_env "__proto__" ["a"] r
    = (Rejected (not_a_function "get"), r).
Proof.
  intros r.
  destruct (inherited_namespace_type_error (B := MemKV.backend) [] sample_env
              "constructor" 0 r) as (Hget & _); [reflexivity|by_table|].
  destruct (inherited_namespace_type_error (B := MemKV.backend) [] sample_env
              "toString" 0 r) as (_ & Hcount & _); [reflexivity|by_table|].
  destruct (inherited_namespace_type_error (B := MemKV.backend) [] sample_env
              "__proto__" 0 r) as (_ & _ & _ & Hbulk & _); [reflexivity|by_table|].
  split; [apply Hget|]. split; [apply Hcount|].
  apply Hbulk; [discriminate | simpl; lia].
Defined.
